(** * Full/empty and single-assignment variables of the pthreads runtime,
      and the string helpers of the runtime

    Sources: [runtime/include/threads-pthreads/chpl_cfg_threads.h] and
    [runtime/src/chpltypes.c].

    The header defines the access operations on sync and single variables
    as macros over a handful of runtime functions
    ([chpl_sync_lock], [chpl_sync_wait_full_and_lock], ...).  Each macro is
    embedded as a program in a small resumption monad: a program is a
    sequence of atomic calls, each call is a function of the calling task
    and of the shared variable, and a call that cannot proceed leaves the
    task suspended at that call, to be retried later. *)

From Stdlib Require Import ZArith List String Ascii Bool Lia.
Import ListNotations.

Open Scope string_scope.
Open Scope list_scope.
Open Scope Z_scope.

(** ** Tasks, mutexes, condition variables *)

Definition tid := nat.

(** [chpl_mutex_t]: free, held by a task, or unusable (destroyed or
    corrupt), in which case acquiring it fails. *)
Inductive chpl_mutex_t : Type :=
| MutexFree
| MutexHeld (owner : tid)
| MutexInvalid.

(** [chpl_condvar_t]: the tasks currently blocked on the condition
    variable. *)
Definition chpl_condvar_t : Type := list tid.

Definition waiting (t : tid) (cv : chpl_condvar_t) : bool :=
  existsb (Nat.eqb t) cv.

(** Error code of a failed lock acquisition ([pthread_mutex_lock] on an
    invalid mutex). *)
Definition EINVAL : Z := 22.

(** ** Observable events *)

Inductive condvar_id : Type := CondFull | CondEmpty.

Inductive event : Type :=
| EvAcquire
| EvRelease
| EvWait (c : condvar_id)
| EvBroadcast (c : condvar_id)
| EvError (msg : string) (lineno : Z) (filename : string)
| EvInternalError (msg : string).

(** The shared variable together with the log of what tasks did to it. *)
Record world (X : Type) : Type := mk_world {
  var : X;
  trace : list (tid * event)
}.
Arguments mk_world {X} _ _.
Arguments var {X} _.
Arguments trace {X} _.

Definition log {X : Type} (t : tid) (evs : list event) (w : world X) : world X :=
  mk_world (var w) (trace w ++ map (pair t) evs).

Definition update {X : Type} (f : X -> X) (w : world X) : world X :=
  mk_world (f (var w)) (trace w).

(** ** Programs *)

(** What one atomic call does: it returns, it leaves the caller blocked,
    or it terminates the process. *)
Inductive reply (W R : Type) : Type :=
| Returns (r : R) (w : W)
| Blocks (w : W)
| Aborts (msg : string) (w : W).
Arguments Returns {W R} _ _.
Arguments Blocks {W R} _.
Arguments Aborts {W R} _ _.

Definition call_t (W R : Type) : Type := tid -> W -> reply W R.

Inductive prog (W A : Type) : Type :=
| Ret (a : A)
| Vis (R : Type) (op : call_t W R) (k : R -> prog W A).
Arguments Ret {W A} _.
Arguments Vis {W A R} _ _.

Fixpoint bind {W A B : Type} (p : prog W A) (f : A -> prog W B) : prog W B :=
  match p with
  | Ret a => f a
  | Vis op k => Vis op (fun r => bind (k r) f)
  end.

Definition call {W R : Type} (op : call_t W R) : prog W R := Vis op Ret.

Declare Scope prog_scope.
Delimit Scope prog_scope with prog.
Notation "x <- p ;; q" := (bind p (fun x => q))
  (at level 61, p at next level, right associativity) : prog_scope.
Notation "p ;; q" := (bind p (fun _ => q))
  (at level 61, right associativity) : prog_scope.

Inductive outcome (W A : Type) : Type :=
| Done (a : A) (w : W)
| Blocked (p : prog W A) (w : W)
| Aborted (msg : string) (w : W).
Arguments Done {W A} _ _.
Arguments Blocked {W A} _ _.
Arguments Aborted {W A} _ _.

(** Task [t] runs [p] until it ends, blocks or aborts.  A blocked task is
    left at the call that blocked. *)
Fixpoint run {W A : Type} (t : tid) (p : prog W A) (w : W) : outcome W A :=
  match p with
  | Ret a => Done a w
  | Vis op k =>
      match op t w with
      | Returns r w' => run t (k r) w'
      | Blocks w' => Blocked (Vis op k) w'
      | Aborts msg w' => Aborted msg w'
      end
  end.

Definition final {W A : Type} (o : outcome W A) : W :=
  match o with
  | Done _ w | Blocked _ w | Aborted _ w => w
  end.

(** ** Runtime functions shared by both kinds of variable *)

Definition release (m : chpl_mutex_t) : chpl_mutex_t :=
  match m with
  | MutexInvalid => MutexInvalid
  | _ => MutexFree
  end.

(** Modelled from the spec: [chpl_internal_error], the fatal-error reporter
    ("terminates the process"); its definition is not part of the header. *)
Definition chpl_internal_error {X : Type} (msg : string) : call_t (world X) unit :=
  fun t w => Aborts msg (log t [EvInternalError msg] w).

(** Modelled from the spec: [chpl_error], the recoverable-error reporter
    ("signals a user-visible error without terminating" and "return[s]
    control to the caller"); its definition is not part of the header. *)
Definition chpl_error {X : Type} (msg : string) (lineno : Z) (filename : string)
  : call_t (world X) unit :=
  fun t w => Returns tt (log t [EvError msg lineno filename] w).

(** ** Sync variables *)

Module Sync.

(** [chpl_sync_aux_t] *)
Record chpl_sync_aux_t : Type := mk_aux {
  is_full : bool;
  lock : chpl_mutex_t;
  signal_full : chpl_condvar_t;
  signal_empty : chpl_condvar_t
}.

(** A sync variable: the payload and its auxiliary record, the two
    fields the macros access as [->value] and [->sync_aux]. *)
Record _syncvar (V : Type) : Type := mk_var {
  value : V;
  sync_aux : chpl_sync_aux_t
}.
Arguments mk_var {V} _ _.
Arguments value {V} _.
Arguments sync_aux {V} _.

Section Ops.
Context {V : Type}.

Definition W : Type := world (_syncvar V).

Definition set_aux (s : chpl_sync_aux_t) (w : W) : W :=
  update (fun x => mk_var (value x) s) w.

Definition aux (w : W) : chpl_sync_aux_t := sync_aux (var w).

(** [(y)->value] read into a local. *)
Definition load_value : call_t W V :=
  fun _ w => Returns (value (var w)) w.

(** [(x)->value = (y)] *)
Definition store_value (y : V) : call_t W unit :=
  fun _ w => Returns tt (update (fun x => mk_var y (sync_aux x)) w).

(** Modelled from the spec: [chpl_sync_lock], "acquire ... the cell's
    mutual-exclusion lock; blocking"; it reports a fault (nonzero) when
    the lock itself is unusable.  Defined in the threads layer, not in
    the header. *)
Definition chpl_sync_lock : call_t W Z :=
  fun t w =>
    let s := aux w in
    match lock s with
    | MutexInvalid => Returns EINVAL w
    | MutexHeld _ => Blocks w
    | MutexFree =>
        Returns 0
          (log t [EvAcquire]
             (set_aux (mk_aux (is_full s) (MutexHeld t)
                         (signal_full s) (signal_empty s)) w))
    end.

(** Modelled from the spec: [chpl_sync_unlock], "release the cell's
    mutual-exclusion lock".  Defined in the threads layer. *)
Definition chpl_sync_unlock : call_t W unit :=
  fun t w =>
    let s := aux w in
    Returns tt
      (log t [EvRelease]
         (set_aux (mk_aux (is_full s) (release (lock s))
                     (signal_full s) (signal_empty s)) w)).

(** Modelled from the spec: [chpl_sync_wait_full_and_lock], "acquire the
    lock; while state is Empty, atomically release the lock and block
    on condFull, then reacquire on wake; loop until state is Full ...;
    returns with the lock held.  Fails only if lock acquisition itself
    fails".  A task listed in [signal_full] is still asleep; once a
    broadcast has removed it, its next attempt reacquires the lock and
    tests the state again.  Defined in the threads layer. *)
Definition chpl_sync_wait_full_and_lock (lineno : Z) (filename : string)
  : call_t W Z :=
  fun t w =>
    let s := aux w in
    match lock s with
    | MutexInvalid => Returns EINVAL w
    | MutexHeld _ => Blocks w
    | MutexFree =>
        if waiting t (signal_full s) then Blocks w
        else if is_full s then
          Returns 0
            (log t [EvAcquire]
               (set_aux (mk_aux (is_full s) (MutexHeld t)
                           (signal_full s) (signal_empty s)) w))
        else
          Blocks
            (log t [EvWait CondFull]
               (set_aux (mk_aux (is_full s) (lock s)
                           (t :: signal_full s) (signal_empty s)) w))
    end.

(** Modelled from the spec: [chpl_sync_wait_empty_and_lock], "symmetric,
    waiting for Empty on condEmpty".  Defined in the threads layer. *)
Definition chpl_sync_wait_empty_and_lock (lineno : Z) (filename : string)
  : call_t W Z :=
  fun t w =>
    let s := aux w in
    match lock s with
    | MutexInvalid => Returns EINVAL w
    | MutexHeld _ => Blocks w
    | MutexFree =>
        if waiting t (signal_empty s) then Blocks w
        else if is_full s then
          Blocks
            (log t [EvWait CondEmpty]
               (set_aux (mk_aux (is_full s) (lock s)
                           (signal_full s) (t :: signal_empty s)) w))
        else
          Returns 0
            (log t [EvAcquire]
               (set_aux (mk_aux (is_full s) (MutexHeld t)
                           (signal_full s) (signal_empty s)) w))
    end.

(** Modelled from the spec: [chpl_sync_mark_and_signal_full],
    "precondition — lock already held; sets state accordingly, wakes
    all waiters on the corresponding condition variable, releases the
    lock".  Defined in the threads layer. *)
Definition chpl_sync_mark_and_signal_full : call_t W unit :=
  fun t w =>
    let s := aux w in
    Returns tt
      (log t [EvBroadcast CondFull; EvRelease]
         (set_aux (mk_aux true (release (lock s))
                     [] (signal_empty s)) w)).

(** Modelled from the spec: [chpl_sync_mark_and_signal_empty], the
    Empty counterpart of the above.  Defined in the threads layer. *)
Definition chpl_sync_mark_and_signal_empty : call_t W unit :=
  fun t w =>
    let s := aux w in
    Returns tt
      (log t [EvBroadcast CondEmpty; EvRelease]
         (set_aux (mk_aux false (release (lock s))
                     (signal_full s) []) w)).

(** The macros.  A macro that assigns to its argument [x] takes the
    old content of [x] and returns the new one. *)

Definition _chpl_read_FE (x : V) (lineno : Z) (filename : string)
  : prog W V :=
  (rc <- call (chpl_sync_wait_full_and_lock lineno filename) ;;
   if rc =? 0 then
     x' <- call load_value ;;
     call chpl_sync_mark_and_signal_empty ;;
     Ret x'
   else Ret x)%prog.

Definition _chpl_read_FF (x : V) (lineno : Z) (filename : string)
  : prog W V :=
  (rc <- call (chpl_sync_wait_full_and_lock lineno filename) ;;
   if rc =? 0 then
     x' <- call load_value ;;
     call chpl_sync_mark_and_signal_full ;;
     Ret x'
   else Ret x)%prog.

Definition _chpl_read_XX (x : V) : prog W V :=
  (rc <- call chpl_sync_lock ;;
   if rc =? 0 then
     x' <- call load_value ;;
     call chpl_sync_unlock ;;
     Ret x'
   else Ret x)%prog.

Definition _chpl_write_EF (y : V) (lineno : Z) (filename : string)
  : prog W unit :=
  (rc <- call (chpl_sync_wait_empty_and_lock lineno filename) ;;
   if rc =? 0 then
     call (store_value y) ;;
     call chpl_sync_mark_and_signal_full
   else call (chpl_internal_error "invalid mutex in _chpl_write_EF"))%prog.

Definition _chpl_write_FF (y : V) (lineno : Z) (filename : string)
  : prog W unit :=
  (rc <- call (chpl_sync_wait_full_and_lock lineno filename) ;;
   if rc =? 0 then
     call (store_value y) ;;
     call chpl_sync_mark_and_signal_full
   else call (chpl_internal_error "invalid mutex in _chpl_write_FF"))%prog.

Definition _chpl_write_XF (y : V) : prog W unit :=
  (rc <- call chpl_sync_lock ;;
   if rc =? 0 then
     call (store_value y) ;;
     call chpl_sync_mark_and_signal_full
   else call (chpl_internal_error "invalid mutex in _chpl_write_XF"))%prog.

(** [zero] is what the literal [0] denotes at the payload type. *)
Definition _chpl_sync_reset (zero : V) : prog W unit :=
  (rc <- call chpl_sync_lock ;;
   if rc =? 0 then
     call (store_value zero) ;;
     call chpl_sync_mark_and_signal_empty
   else call (chpl_internal_error "invalid mutex in _chpl_sync_reset"))%prog.

End Ops.

Arguments W : clear implicits.

End Sync.

(** ** Single variables *)

Module Single.

(** [chpl_single_aux_t] *)
Record chpl_single_aux_t : Type := mk_aux {
  is_full : bool;
  lock : chpl_mutex_t;
  signal_full : chpl_condvar_t
}.

(** A single variable, with the fields the macros access as [->value]
    and [->single_aux]. *)
Record _singlevar (V : Type) : Type := mk_var {
  value : V;
  single_aux : chpl_single_aux_t
}.
Arguments mk_var {V} _ _.
Arguments value {V} _.
Arguments single_aux {V} _.

Section Ops.
Context {V : Type}.

Definition W : Type := world (_singlevar V).

Definition set_aux (s : chpl_single_aux_t) (w : W) : W :=
  update (fun x => mk_var (value x) s) w.

Definition aux (w : W) : chpl_single_aux_t := single_aux (var w).

(** [(y)->value] read into a local. *)
Definition load_value : call_t W V :=
  fun _ w => Returns (value (var w)) w.

(** [(x)->value = (y)] *)
Definition store_value (y : V) : call_t W unit :=
  fun _ w => Returns tt (update (fun x => mk_var y (single_aux x)) w).

(** [(x)->single_aux.is_full = b] *)
Definition store_is_full (b : bool) : call_t W unit :=
  fun _ w =>
    let s := aux w in
    Returns tt (set_aux (mk_aux b (lock s) (signal_full s)) w).

(** Modelled from the spec: [chpl_single_lock], "acquire ... the cell's
    mutual-exclusion lock; blocking"; it reports a fault (nonzero) when
    the lock itself is unusable.  Defined in the threads layer, not in
    the header. *)
Definition chpl_single_lock : call_t W Z :=
  fun t w =>
    let s := aux w in
    match lock s with
    | MutexInvalid => Returns EINVAL w
    | MutexHeld _ => Blocks w
    | MutexFree =>
        Returns 0
          (log t [EvAcquire]
             (set_aux (mk_aux (is_full s) (MutexHeld t) (signal_full s)) w))
    end.

(** Modelled from the spec: [chpl_single_is_full], "returns current
    fullness.  The nonBlocking variant must never block — if the lock
    is currently held elsewhere, it returns a best-effort ... answer
    rather than waiting".  The first argument of the C function, the
    address of the payload, plays no part.  Defined in the threads
    layer. *)
Definition chpl_single_is_full (simple_single_var : bool) : call_t W bool :=
  fun t w =>
    let s := aux w in
    if simple_single_var then Returns (is_full s) w
    else
      match lock s with
      | MutexHeld o => if Nat.eqb o t then Returns (is_full s) w else Blocks w
      | _ => Returns (is_full s) w
      end.

(** Modelled from the spec: [chpl_single_wait_full], the
    [waitFullAndLock] of a single variable: "acquire the lock; while
    state is Empty, atomically release the lock and block on condFull,
    then reacquire on wake; loop until state is Full ...; returns with
    the lock held.  Fails only if lock acquisition itself fails".
    Defined in the threads layer. *)
Definition chpl_single_wait_full (lineno : Z) (filename : string)
  : call_t W Z :=
  fun t w =>
    let s := aux w in
    match lock s with
    | MutexInvalid => Returns EINVAL w
    | MutexHeld _ => Blocks w
    | MutexFree =>
        if waiting t (signal_full s) then Blocks w
        else if is_full s then
          Returns 0
            (log t [EvAcquire]
               (set_aux (mk_aux (is_full s) (MutexHeld t) (signal_full s)) w))
        else
          Blocks
            (log t [EvWait CondFull]
               (set_aux (mk_aux (is_full s) (lock s) (t :: signal_full s)) w))
    end.

(** Modelled from the spec: [chpl_single_mark_and_signal_full],
    "precondition — lock already held; sets state accordingly, wakes
    all waiters on the corresponding condition variable, releases the
    lock".  Defined in the threads layer. *)
Definition chpl_single_mark_and_signal_full : call_t W unit :=
  fun t w =>
    let s := aux w in
    Returns tt
      (log t [EvBroadcast CondFull; EvRelease]
         (set_aux (mk_aux true (release (lock s)) []) w)).

(** The macros. *)

Definition _chpl_single_read_FF (x : V) (lineno : Z) (filename : string)
  : prog W V :=
  (full <- call (chpl_single_is_full true) ;;
   if full : bool then
     call load_value
   else
     rc <- call (chpl_single_wait_full lineno filename) ;;
     if rc =? 0 then
       x' <- call load_value ;;
       call chpl_single_mark_and_signal_full ;;
       Ret x'
     else Ret x)%prog.

Definition _chpl_single_write_EF (y : V) (lineno : Z) (filename : string)
  : prog W unit :=
  (rc <- call chpl_single_lock ;;
   if rc =? 0 then
     full <- call (chpl_single_is_full true) ;;
     if full : bool then
       call (chpl_error "single var already defined" lineno filename)
     else
       call (store_value y) ;;
       call chpl_single_mark_and_signal_full
   else
     call (chpl_internal_error "invalid mutex in _chpl_single_write_EF"))%prog.

(** [zero] is what the literal [0] denotes at the payload type. *)
Definition _chpl_single_reset (zero : V) : prog W unit :=
  (call (store_value zero) ;;
   call (store_is_full false))%prog.

End Ops.

Arguments W : clear implicits.

End Single.

(** Tasks run one after the other, each from the world the previous one
    left. *)
Fixpoint run_each {W A : Type} (ps : list (tid * prog W A)) (w : W)
  : list (outcome W A) :=
  match ps with
  | [] => []
  | (t, p) :: ps' =>
      let o := run t p w in
      o :: run_each ps' (final o)
  end.

(** A reader: the task, the old content of its destination, and the
    source position it passes. *)
Definition reader_FF {V : Type} (r : tid * V * Z * string)
  : tid * prog (Sync.W V) V :=
  let '(t, x, lineno, filename) := r in
  (t, Sync._chpl_read_FF x lineno filename).

Definition reader_tid {V : Type} (r : tid * V * Z * string) : tid :=
  let '(t, _, _, _) := r in t.

(** What the caller of a rejected second write observes: the macro
    returns, the lock was taken and the error [msg] reported at the
    caller's source position, and the variable is still Full with the value
    it had. *)
Definition rejects_second_write {V : Type} (msg : string) (t : tid)
    (s : Single.W V) (v2 : V) (lineno : Z) (filename : string) : Prop :=
  exists s',
    run t (Single._chpl_single_write_EF v2 lineno filename) s = Done tt s'
    /\ trace s' = trace s ++ [(t, EvAcquire); (t, EvError msg lineno filename)]
    /\ Single.value (var s') = Single.value (var s)
    /\ Single.is_full (Single.aux s') = true.

(** ** String helpers of [runtime/src/chpltypes.c] *)

(** A C string is given by the characters before its terminating NUL. *)
Definition _string : Type := list ascii.

Definition NUL : ascii := Ascii.zero.

(** Arithmetic in [int]: the result wraps to 32 bits, two's complement. *)
Definition int32 (z : Z) : Z := (z + 2 ^ 31) mod 2 ^ 32 - 2 ^ 31.

(** [reports]: the calls of [chpl_error], in order.  [returned]: what the
    function returns when control reaches its [return]; [None] when on the
    way the C code reads or writes outside an object. *)
Record ran (A : Type) : Type := mk_ran {
  reports : list event;
  returned : option A
}.
Arguments mk_ran {A} _ _.
Arguments reports {A} _.
Arguments returned {A} _.

(** The C library, on strings and character arrays. *)

Definition strlen (x : list ascii) : Z := Z.of_nat (List.length x).

(** The string held by a character array: what precedes its first NUL. *)
Fixpoint c_content (buf : list ascii) : _string :=
  match buf with
  | [] => []
  | c :: rest => if Ascii.eqb c NUL then [] else c :: c_content rest
  end.

(** [x[off]]: a character of the string, its terminator, or a read
    outside the array. *)
Definition char_at (x : _string) (off : Z) : option ascii :=
  if (0 <=? off) && (off <? strlen x) then nth_error x (Z.to_nat off)
  else if off =? strlen x then Some NUL
  else None.

(** [strcat(dest, src)] into an array of [cap] characters that holds the
    string [dest]: the result, terminator included, has to fit. *)
Definition strcat (cap : Z) (dest src : _string) : option _string :=
  if strlen dest + strlen src + 1 <=? cap then Some (dest ++ src) else None.

(** [sprintf(buffer, "%c", c)] into [char buffer[2]]: the string left in
    [buffer]. *)
Definition sprintf_c (c : ascii) : _string := c_content [c; NUL].

Fixpoint is_prefix (y x : list ascii) : bool :=
  match y, x with
  | [], _ => true
  | _ :: _, [] => false
  | c :: y', d :: x' => Ascii.eqb c d && is_prefix y' x'
  end.

(** [strstr(x, y)]: the offset of the first occurrence of [y] in [x]. *)
Fixpoint strstr (x y : _string) : option nat :=
  if is_prefix y x then Some O
  else
    match x with
    | [] => None
    | _ :: x' => option_map S (strstr x' y)
    end.

(** Modelled from the spec: [chpl_malloc], the allocator that "supplies
    backing storage"; its definition is not under the sources.  The model
    is the capacity, in bytes, of the block returned for [number] items of
    [size] bytes. *)
Definition chpl_malloc (number size : Z) : Z := number * size.

(** [str[0] = '\0'] in a block of [cap] bytes. *)
Definition empty_in (cap : Z) : option _string :=
  if 1 <=? cap then Some [] else None.

(** First loop of [_glom_strings]: [len += strlen(va_arg(ap, char* ))],
    [n] times.  Taking an argument that was not passed is undefined. *)
Fixpoint glom_len (n : nat) (ap : list _string) (len : Z) : option Z :=
  match n with
  | O => Some len
  | S n' =>
      match ap with
      | [] => None
      | a :: ap' => glom_len n' ap' (int32 (len + strlen a))
      end
  end.

(** Second loop: [strcat(str, va_arg(ap, char* ))], [n] times. *)
Fixpoint glom_cat (n : nat) (ap : list _string) (cap : Z) (str : _string)
  : option _string :=
  match n with
  | O => Some str
  | S n' =>
      match ap with
      | [] => None
      | a :: ap' =>
          match strcat cap str a with
          | None => None
          | Some str' => glom_cat n' ap' cap str'
          end
      end
  end.

(** [_glom_strings(numstrings, ...)], the variable arguments as a list. *)
Definition _glom_strings (numstrings : Z) (ap : list _string) : option _string :=
  match glom_len (Z.to_nat numstrings) ap 0 with
  | None => None
  | Some len =>
      let cap := chpl_malloc (int32 (len + 1)) 1 in
      match empty_in cap with
      | None => None
      | Some str => glom_cat (Z.to_nat numstrings) ap cap str
      end
  end.

Definition string_concat (x y : _string) (lineno : Z) (filename : string)
  : option _string :=
  let cap := chpl_malloc (strlen x + strlen y + 1) 1 in
  match empty_in cap with
  | None => None
  | Some z =>
      match strcat cap z x with
      | None => None
      | Some z' => strcat cap z' y
      end
  end.

Definition string_length (x : _string) : Z := strlen x.

(** [while (src - x <= high - 1) { *dst++ = *src; src += stride; }], with
    [src] as an offset from [x], [bound] for [high - 1], [room] for the
    bytes left in [result] and [out] for the characters written so far. *)
Fixpoint copy_up (room : nat) (x : _string) (bound stride src : Z)
    (out : list ascii) : option (list ascii) :=
  if src <=? bound then
    match room with
    | O => None
    | S room' =>
        match char_at x src with
        | None => None
        | Some c => copy_up room' x bound stride (src + stride) (out ++ [c])
        end
    end
  else Some out.

(** [while (src - x >= low - 1) { *dst++ = *src; src += stride; }], with
    [bound] for [low - 1]. *)
Fixpoint copy_down (room : nat) (x : _string) (bound stride src : Z)
    (out : list ascii) : option (list ascii) :=
  if src >=? bound then
    match room with
    | O => None
    | S room' =>
        match char_at x src with
        | None => None
        | Some c => copy_down room' x bound stride (src + stride) (out ++ [c])
        end
    end
  else Some out.

Definition string_strided_select (x : _string) (low high stride : Z)
    (lineno : Z) (filename : string) : ran _string :=
  let length := string_length x in
  let src := if stride >? 0 then low - 1 else high - 1 in
  let size := if int32 (high - low) >=? 0 then int32 (high - low) else 0 in
  let reports :=
    if (low <? 1) || (low >? length) || (high >? length)
    then [EvError "string index out of bounds" lineno filename]
    else [] in
  let cap := chpl_malloc (int32 (size + 2)) 1 in
  let copied :=
    if stride >? 0
    then copy_up (Z.to_nat cap) x (int32 (high - 1)) stride src []
    else copy_down (Z.to_nat cap) x (int32 (low - 1)) stride src [] in
  mk_ran reports
    match copied with
    | None => None
    | Some out =>
        if strlen out <? cap
        then _glom_strings 1 [c_content out]
        else None
    end.

Definition string_select (x : _string) (low high : Z)
    (lineno : Z) (filename : string) : ran _string :=
  string_strided_select x low high 1 lineno filename.

Definition string_index (x : _string) (i : Z) (lineno : Z) (filename : string)
  : ran _string :=
  let reports :=
    if (int32 (i - 1) <? 0) || (int32 (i - 1) >=? string_length x)
    then [EvError "string index out of bounds" lineno filename]
    else [] in
  mk_ran reports
    match char_at x (int32 (i - 1)) with
    | None => None
    | Some c => _glom_strings 1 [sprintf_c c]
    end.

Definition string_contains (x y : _string) : bool :=
  match strstr x y with
  | Some _ => true
  | None => false
  end.

(** ** Sample variables *)

(** A freshly declared sync variable: Empty, default payload. *)
Definition sync_empty : Sync.W Z :=
  mk_world (Sync.mk_var 0 (Sync.mk_aux false MutexFree [] [])) [].

(** A Full sync variable holding 7, with task 3 waiting for it to empty. *)
Definition sync_full : Sync.W Z :=
  mk_world (Sync.mk_var 7 (Sync.mk_aux true MutexFree [] [3%nat])) [].

(** A sync variable whose mutex has been destroyed. *)
Definition sync_broken : Sync.W Z :=
  mk_world (Sync.mk_var 7 (Sync.mk_aux true MutexInvalid [] [])) [].

(** A freshly declared single variable. *)
Definition single_empty : Single.W Z :=
  mk_world (Single.mk_var 0 (Single.mk_aux false MutexFree [])) [].

(** The same after task 1 has written 1 to it. *)
Definition single_written : Single.W Z :=
  final (run 1%nat (Single._chpl_single_write_EF 1 10 "a.chpl") single_empty).

(** A single variable on which task 2 went to sleep in
    [_chpl_single_read_FF]. *)
Definition single_awaited : Single.W Z :=
  final (run 2%nat (Single._chpl_single_read_FF 0 20 "b.chpl") single_empty).

(** A sync variable whose lock task 4 holds. *)
Definition sync_held : Sync.W Z :=
  mk_world (Sync.mk_var 7 (Sync.mk_aux true (MutexHeld 4%nat) [] [])) [].

(** A single variable whose mutex has been destroyed. *)
Definition single_broken : Single.W Z :=
  mk_world (Single.mk_var 0 (Single.mk_aux false MutexInvalid [])) [].

(** A sample string. *)
Definition hello : _string := list_ascii_of_string "hello".

(** * Properties *)

(** ** The resumption monad *)

Lemma run_bind {W A B : Type} (t : tid) (p : prog W A) (f : A -> prog W B) (w : W) :
  run t (bind p f) w =
  match run t p w with
  | Done a w' => run t (f a) w'
  | Blocked p' w' => Blocked (bind p' f) w'
  | Aborted msg w' => Aborted msg w'
  end.
Proof.
  revert w; induction p as [a | R op k IH]; intros w; simpl.
  - reflexivity.
  - destruct (op t w) as [r w' | w' | msg w']; auto.
Qed.

Lemma run_call {W R A : Type} (t : tid) (op : call_t W R) (k : R -> prog W A)
      (w : W) (r : R) (w' : W) :
  op t w = Returns r w' ->
  run t (bind (call op) k) w = run t (k r) w'.
Proof. intros H; simpl; rewrite H; reflexivity. Qed.

Ltac break_sync w :=
  let v := fresh "v" in let b := fresh "full" in let m := fresh "m" in
  let sf := fresh "sf" in let se := fresh "se" in let tr := fresh "tr" in
  destruct w as [[v [b m sf se]] tr];
  unfold Sync.aux in *; simpl in *; subst.

Ltac break_single w :=
  let v := fresh "v" in let b := fresh "full" in let m := fresh "m" in
  let sf := fresh "sf" in let tr := fresh "tr" in
  destruct w as [[v [b m sf]] tr];
  unfold Single.aux in *; simpl in *; subst.

Ltac finish_world :=
  unfold log, update, Sync.set_aux, Single.set_aux; simpl;
  rewrite <- ?app_assoc; simpl; try reflexivity.

Section SyncProperties.
Context {V : Type}.
Implicit Types (c w : Sync.W V) (t : tid) (v x y : V).

(** On a Full variable whose lock is free, [_chpl_read_FF] returns the
    stored value, broadcasts on the full side and releases the lock. *)
Lemma read_FF_on_full t w x lineno filename :
  Sync.is_full (Sync.aux w) = true ->
  Sync.lock (Sync.aux w) = MutexFree ->
  waiting t (Sync.signal_full (Sync.aux w)) = false ->
  run t (Sync._chpl_read_FF x lineno filename) w =
  Done (Sync.value (var w))
    (log t [EvAcquire; EvBroadcast CondFull; EvRelease]
       (Sync.set_aux
          (Sync.mk_aux true MutexFree [] (Sync.signal_empty (Sync.aux w))) w)).
Proof.
  intros Hf Hl Hw. break_sync w.
  unfold Sync._chpl_read_FF, Sync.chpl_sync_wait_full_and_lock, Sync.aux.
  simpl. rewrite Hw. simpl. f_equal. finish_world.
Qed.

(** While another task holds the lock, a macro that starts with
    [chpl_sync_lock] leaves its caller suspended at that call and changes
    nothing; the caller retries it later. *)
Lemma sync_reset_waits_for_lock t w o (zero : V) :
  Sync.lock (Sync.aux w) = MutexHeld o ->
  run t (Sync._chpl_sync_reset zero) w = Blocked (Sync._chpl_sync_reset zero) w.
Proof.
  intros Hl. break_sync w. reflexivity.
Qed.

(** C1: on an Empty sync variable (lock free, writer awake),
    [_chpl_write_EF] of [v] followed by a [_chpl_read_FE], by the same
    task or another, returns [v] and leaves the variable Empty. *)
Theorem write_EF_then_read_FE t1 t2 c v x l1 f1 l2 f2 :
  Sync.is_full (Sync.aux c) = false ->
  Sync.lock (Sync.aux c) = MutexFree ->
  waiting t1 (Sync.signal_empty (Sync.aux c)) = false ->
  exists c1 c2,
    run t1 (Sync._chpl_write_EF v l1 f1) c = Done tt c1
    /\ run t2 (Sync._chpl_read_FE x l2 f2) c1 = Done v c2
    /\ Sync.is_full (Sync.aux c2) = false
    /\ Sync.lock (Sync.aux c2) = MutexFree
    /\ trace c2 =
       trace c
       ++ map (pair t1) [EvAcquire; EvBroadcast CondFull; EvRelease]
       ++ map (pair t2) [EvAcquire; EvBroadcast CondEmpty; EvRelease].
Proof.
  intros Hf Hl Hw. break_sync c.
  unfold Sync._chpl_write_EF, Sync._chpl_read_FE,
    Sync.chpl_sync_wait_empty_and_lock, Sync.chpl_sync_wait_full_and_lock,
    Sync.aux.
  simpl. rewrite Hw. simpl.
  eexists; eexists; split; [reflexivity | split; [reflexivity | simpl]].
  repeat split. rewrite <- !app_assoc. reflexivity.
Qed.

(** X1: the same hand-off when the reader comes first: it goes to sleep on the
    full side, the writer's broadcast wakes it, and on its next attempt it
    returns the written value and empties the variable. *)
Lemma read_FE_blocks_until_write_EF tr tw c v x l1 f1 l2 f2 :
  Sync.is_full (Sync.aux c) = false ->
  Sync.lock (Sync.aux c) = MutexFree ->
  waiting tr (Sync.signal_full (Sync.aux c)) = false ->
  waiting tw (Sync.signal_empty (Sync.aux c)) = false ->
  exists c1 c2 c3,
    run tr (Sync._chpl_read_FE x l2 f2) c
    = Blocked (Sync._chpl_read_FE x l2 f2) c1
    /\ waiting tr (Sync.signal_full (Sync.aux c1)) = true
    /\ run tw (Sync._chpl_write_EF v l1 f1) c1 = Done tt c2
    /\ run tr (Sync._chpl_read_FE x l2 f2) c2 = Done v c3
    /\ Sync.is_full (Sync.aux c3) = false.
Proof.
  intros Hf Hl Hr Hw. break_sync c.
  unfold Sync._chpl_write_EF, Sync._chpl_read_FE,
    Sync.chpl_sync_wait_empty_and_lock, Sync.chpl_sync_wait_full_and_lock,
    Sync.aux.
  simpl. rewrite Hr. simpl.
  eexists; eexists; eexists.
  split; [reflexivity |].
  split; [simpl; rewrite Nat.eqb_refl; reflexivity |].
  simpl. rewrite Hw. simpl.
  split; [reflexivity |].
  split; reflexivity.
Qed.

(** C5: once [_chpl_write_EF] has stored [v] in an Empty variable,
    every later [_chpl_read_FF], by whatever task, returns [v], leaves
    the variable Full with value [v], and broadcasts on the full-side
    condition variable, which wakes every task waiting there. *)
Theorem read_FF_after_write_EF t0 c v l0 f0 (rs : list (tid * V * Z * string)) :
  Sync.is_full (Sync.aux c) = false ->
  Sync.lock (Sync.aux c) = MutexFree ->
  waiting t0 (Sync.signal_empty (Sync.aux c)) = false ->
  exists c1,
    run t0 (Sync._chpl_write_EF v l0 f0) c = Done tt c1
    /\ Forall2
         (fun r o =>
            exists w',
              o = Done v w'
              /\ Sync.is_full (Sync.aux w') = true
              /\ Sync.value (var w') = v
              /\ Sync.signal_full (Sync.aux w') = []
              /\ exists tr,
                  trace w' =
                  tr ++ map (pair (reader_tid r))
                          [EvAcquire; EvBroadcast CondFull; EvRelease])
         rs (run_each (map reader_FF rs) c1).
Proof.
  intros Hf Hl Hw.
  assert (Hinv : forall w,
             Sync.is_full (Sync.aux w) = true ->
             Sync.lock (Sync.aux w) = MutexFree ->
             Sync.signal_full (Sync.aux w) = [] ->
             Sync.value (var w) = v ->
             Forall2
               (fun r o =>
                  exists w',
                    o = Done v w'
                    /\ Sync.is_full (Sync.aux w') = true
                    /\ Sync.value (var w') = v
                    /\ Sync.signal_full (Sync.aux w') = []
                    /\ exists tr,
                        trace w' =
                        tr ++ map (pair (reader_tid r))
                                [EvAcquire; EvBroadcast CondFull; EvRelease])
               rs (run_each (map reader_FF rs) w)).
  { clear. induction rs as [| [[[t x] l] f] rs IH]; intros w H1 H2 H3 H4.
    - constructor.
    - change (run_each (map reader_FF ((t, x, l, f) :: rs)) w)
        with (run t (Sync._chpl_read_FF x l f) w
                :: run_each (map reader_FF rs)
                     (final (run t (Sync._chpl_read_FF x l f) w))).
      rewrite read_FF_on_full by (auto; rewrite H3; reflexivity).
      constructor.
      + eexists; split; [rewrite H4; reflexivity |].
        simpl. repeat split; auto. eexists; reflexivity.
      + apply IH; simpl; auto. }
  break_sync c.
  unfold Sync._chpl_write_EF, Sync.chpl_sync_wait_empty_and_lock, Sync.aux.
  simpl. rewrite Hw. simpl.
  eexists; split; [reflexivity |].
  apply Hinv; reflexivity.
Qed.

(** On a Full variable whose lock is free, [_chpl_write_FF] overwrites
    the value, broadcasts on the full side and releases the lock. *)
Lemma write_FF_on_full t w y lineno filename :
  Sync.is_full (Sync.aux w) = true ->
  Sync.lock (Sync.aux w) = MutexFree ->
  waiting t (Sync.signal_full (Sync.aux w)) = false ->
  run t (Sync._chpl_write_FF y lineno filename) w =
  Done tt
    (log t [EvAcquire; EvBroadcast CondFull; EvRelease]
       (mk_world
          (Sync.mk_var y
             (Sync.mk_aux true MutexFree [] (Sync.signal_empty (Sync.aux w))))
          (trace w))).
Proof.
  intros Hf Hl Hw. break_sync w.
  unfold Sync._chpl_write_FF, Sync.chpl_sync_wait_full_and_lock, Sync.aux.
  simpl. rewrite Hw. simpl. f_equal. finish_world.
Qed.

(** C6: on a Full variable, [_chpl_write_FF] of [v2] stores [v2] and
    leaves the state Full, and a following [_chpl_read_FF] returns
    [v2]. *)
Theorem write_FF_then_read_FF t t' c v2 x l1 f1 l2 f2 :
  Sync.is_full (Sync.aux c) = true ->
  Sync.lock (Sync.aux c) = MutexFree ->
  waiting t (Sync.signal_full (Sync.aux c)) = false ->
  exists c1 c2,
    run t (Sync._chpl_write_FF v2 l1 f1) c = Done tt c1
    /\ Sync.value (var c1) = v2
    /\ Sync.is_full (Sync.aux c1) = true
    /\ run t' (Sync._chpl_read_FF x l2 f2) c1 = Done v2 c2
    /\ Sync.is_full (Sync.aux c2) = true.
Proof.
  intros Hf Hl Hw.
  rewrite write_FF_on_full by assumption.
  eexists; eexists; split; [reflexivity |].
  rewrite read_FF_on_full by reflexivity.
  simpl. repeat split.
Qed.

(** C7: whatever the state and the value of a sync variable,
    [_chpl_sync_reset] leaves it Empty with the default value and
    broadcasts on the empty-side condition variable. *)
Theorem sync_reset_empties t c (zero : V) :
  Sync.lock (Sync.aux c) = MutexFree ->
  run t (Sync._chpl_sync_reset zero) c =
  Done tt
    (log t [EvAcquire; EvBroadcast CondEmpty; EvRelease]
       (mk_world
          (Sync.mk_var zero
             (Sync.mk_aux false MutexFree
                (Sync.signal_full (Sync.aux c)) []))
          (trace c))).
Proof.
  intros Hl. break_sync c.
  unfold Sync._chpl_sync_reset, Sync.chpl_sync_lock, Sync.aux. simpl.
  f_equal. finish_world.
Qed.

(** C8: [_chpl_read_FE] never touches the stored value, it only flips
    the state from Full to Empty; so after [_chpl_write_EF] of [v] and a
    [_chpl_read_FE], a [_chpl_read_XX] still returns [v] although the
    variable is Empty. *)
Theorem read_FE_keeps_value t c v x1 x2 l1 f1 l2 f2 :
  Sync.value (var (final (run t (Sync._chpl_read_FE x1 l2 f2) c)))
  = Sync.value (var c)
  /\ (Sync.is_full (Sync.aux c) = false ->
      Sync.lock (Sync.aux c) = MutexFree ->
      waiting t (Sync.signal_empty (Sync.aux c)) = false ->
      exists c',
        run t (Sync._chpl_write_EF v l1 f1 ;;
               a <- Sync._chpl_read_FE x1 l2 f2 ;;
               b <- Sync._chpl_read_XX x2 ;;
               Ret (a, b))%prog c
        = Done (v, v) c'
        /\ Sync.is_full (Sync.aux c') = false
        /\ Sync.value (var c') = v).
Proof.
  split.
  - break_sync c.
    unfold Sync._chpl_read_FE, Sync.chpl_sync_wait_full_and_lock, Sync.aux.
    simpl.
    destruct m; simpl; try reflexivity.
    destruct (waiting t sf); simpl; try reflexivity.
    destruct full; reflexivity.
  - intros Hf Hl Hw. break_sync c.
    unfold Sync._chpl_write_EF, Sync._chpl_read_FE, Sync._chpl_read_XX,
      Sync.chpl_sync_wait_empty_and_lock, Sync.chpl_sync_wait_full_and_lock,
      Sync.chpl_sync_lock, Sync.aux.
    simpl. rewrite Hw. simpl.
    eexists; split; [reflexivity | split; reflexivity].
Qed.

Lemma nonzero_rc (rc : Z) : rc <> 0 -> (rc =? 0) = false.
Proof. intros H; apply Z.eqb_neq; exact H. Qed.

(** C3: when the lock-acquiring call of a macro returns nonzero,
    [_chpl_write_EF], [_chpl_write_FF], [_chpl_write_XF] and
    [_chpl_sync_reset] end in a fatal internal error whose message names
    the macro, while [_chpl_read_FE], [_chpl_read_FF] and [_chpl_read_XX]
    return with the destination as it was and report nothing. *)
Theorem lock_fault_write_fatal_read_silent
        t w w' (rc : Z) x y (zero : V) lineno filename :
  rc <> 0 ->
  (Sync.chpl_sync_wait_empty_and_lock lineno filename t w = Returns rc w' ->
   run t (Sync._chpl_write_EF y lineno filename) w =
   Aborted "invalid mutex in _chpl_write_EF"
     (log t [EvInternalError "invalid mutex in _chpl_write_EF"] w'))
  /\ (Sync.chpl_sync_wait_full_and_lock lineno filename t w = Returns rc w' ->
      run t (Sync._chpl_write_FF y lineno filename) w =
      Aborted "invalid mutex in _chpl_write_FF"
        (log t [EvInternalError "invalid mutex in _chpl_write_FF"] w'))
  /\ (Sync.chpl_sync_lock t w = Returns rc w' ->
      run t (Sync._chpl_write_XF y) w =
      Aborted "invalid mutex in _chpl_write_XF"
        (log t [EvInternalError "invalid mutex in _chpl_write_XF"] w'))
  /\ (Sync.chpl_sync_lock t w = Returns rc w' ->
      run t (Sync._chpl_sync_reset zero) w =
      Aborted "invalid mutex in _chpl_sync_reset"
        (log t [EvInternalError "invalid mutex in _chpl_sync_reset"] w'))
  /\ (Sync.chpl_sync_wait_full_and_lock lineno filename t w = Returns rc w' ->
      run t (Sync._chpl_read_FE x lineno filename) w = Done x w')
  /\ (Sync.chpl_sync_wait_full_and_lock lineno filename t w = Returns rc w' ->
      run t (Sync._chpl_read_FF x lineno filename) w = Done x w')
  /\ (Sync.chpl_sync_lock t w = Returns rc w' ->
      run t (Sync._chpl_read_XX x) w = Done x w').
Proof.
  intros Hrc. apply nonzero_rc in Hrc.
  repeat split; intros H;
    [ unfold Sync._chpl_write_EF | unfold Sync._chpl_write_FF
    | unfold Sync._chpl_write_XF | unfold Sync._chpl_sync_reset
    | unfold Sync._chpl_read_FE | unfold Sync._chpl_read_FF
    | unfold Sync._chpl_read_XX ];
    rewrite (run_call _ _ _ _ _ _ H), Hrc; reflexivity.
Qed.

(** In the model, a lock-acquiring call returns nonzero exactly on an
    unusable lock, and then it changes nothing. *)
Lemma sync_lock_fault t w rc w' :
  Sync.chpl_sync_lock t w = Returns rc w' ->
  rc <> 0 <-> Sync.lock (Sync.aux w) = MutexInvalid.
Proof.
  unfold Sync.chpl_sync_lock.
  destruct (Sync.lock (Sync.aux w)); intros H; inversion H; subst;
    split; intros H'; try congruence; discriminate.
Qed.

End SyncProperties.

Section SingleProperties.
Context {V : Type}.
Implicit Types (s w : Single.W V) (t : tid) (v x y : V).

(** C2, as the code has it: a second [_chpl_single_write_EF] on a Full
    single variable reports the recoverable error "single var already
    defined" and leaves the value and the Full state as they were. *)
Theorem second_write_EF_rejected t s v2 lineno filename :
  Single.is_full (Single.aux s) = true ->
  Single.lock (Single.aux s) = MutexFree ->
  rejects_second_write "single var already defined" t s v2 lineno filename.
Proof.
  intros Hf Hl. break_single s.
  unfold rejects_second_write, Single._chpl_single_write_EF,
    Single.chpl_single_lock, Single.chpl_single_is_full, Single.aux.
  simpl. eexists; split; [reflexivity |].
  simpl. repeat split. rewrite <- app_assoc. reflexivity.
Qed.

(** C9: on a Full single variable the error branch of
    [_chpl_single_write_EF] returns to the caller with the lock still
    held by the caller; only the branch that stores the value releases
    it, through [chpl_single_mark_and_signal_full]. *)
Theorem single_write_EF_error_keeps_lock t s v2 lineno filename :
  Single.lock (Single.aux s) = MutexFree ->
  (Single.is_full (Single.aux s) = true ->
   run t (Single._chpl_single_write_EF v2 lineno filename) s =
   Done tt
     (log t [EvAcquire; EvError "single var already defined" lineno filename]
        (Single.set_aux
           (Single.mk_aux true (MutexHeld t)
              (Single.signal_full (Single.aux s))) s)))
  /\ (Single.is_full (Single.aux s) = false ->
      run t (Single._chpl_single_write_EF v2 lineno filename) s =
      Done tt
        (log t [EvAcquire; EvBroadcast CondFull; EvRelease]
           (mk_world (Single.mk_var v2 (Single.mk_aux true MutexFree []))
              (trace s)))).
Proof.
  intros Hl; split; intros Hf; break_single s;
    unfold Single._chpl_single_write_EF, Single.chpl_single_lock,
      Single.chpl_single_is_full, Single.aux;
    simpl; f_equal; finish_world.
Qed.

(** C10: [_chpl_single_reset] stores the default value and clears
    [is_full] whatever the lock is; it takes no lock, signals nothing
    and logs nothing, and a task blocked in [_chpl_single_read_FF] is
    still blocked afterwards. *)
Theorem single_reset_direct t s (zero : V) :
  run t (Single._chpl_single_reset zero) s =
  Done tt
    (mk_world
       (Single.mk_var zero
          (Single.mk_aux false (Single.lock (Single.aux s))
             (Single.signal_full (Single.aux s))))
       (trace s))
  /\ forall t' s0 x lineno filename p,
      run t' (Single._chpl_single_read_FF x lineno filename) s0 = Blocked p s ->
      run t' p (final (run t (Single._chpl_single_reset zero) s))
      = Blocked p (final (run t (Single._chpl_single_reset zero) s)).
Proof.
  split.
  - break_single s. reflexivity.
  - intros t' s0 x lineno filename p H.
    break_single s0.
    unfold Single._chpl_single_read_FF, Single.chpl_single_is_full,
      Single.chpl_single_wait_full, Single.aux in H.
    simpl in H.
    destruct full; simpl in H; [discriminate |].
    destruct m; simpl in H; try discriminate.
    + destruct (waiting t' sf) eqn:Hw; simpl in H.
      * inversion H; subst; clear H. simpl.
        unfold Single.chpl_single_wait_full, Single.aux. simpl.
        rewrite Hw. reflexivity.
      * inversion H; subst; clear H. simpl.
        unfold Single.chpl_single_wait_full, Single.aux. simpl.
        rewrite Nat.eqb_refl. reflexivity.
    + inversion H; subst; clear H. reflexivity.
Qed.

(** C4: [_chpl_single_read_FF] first asks the non-blocking
    [chpl_single_is_full].  If the answer is Full it returns the value at
    once: the lock, whatever its condition, is not touched and nothing is
    signalled.  Otherwise the task waits in [chpl_single_wait_full]; when
    it runs again with the variable Full it takes the lock, reads the
    value, broadcasts on the full side and releases the lock; when it
    runs again with the variable still Empty it goes back to waiting. *)
Theorem single_read_FF_paths t s x lineno filename :
  (Single.is_full (Single.aux s) = true ->
   run t (Single._chpl_single_read_FF x lineno filename) s
   = Done (Single.value (var s)) s)
  /\ (Single.is_full (Single.aux s) = false ->
      Single.lock (Single.aux s) = MutexFree ->
      waiting t (Single.signal_full (Single.aux s)) = false ->
      exists p,
        run t (Single._chpl_single_read_FF x lineno filename) s
        = Blocked p
            (log t [EvWait CondFull]
               (Single.set_aux
                  (Single.mk_aux false MutexFree
                     (t :: Single.signal_full (Single.aux s))) s))
        /\ forall s2,
            Single.lock (Single.aux s2) = MutexFree ->
            waiting t (Single.signal_full (Single.aux s2)) = false ->
            (Single.is_full (Single.aux s2) = true ->
             run t p s2
             = Done (Single.value (var s2))
                 (log t [EvAcquire; EvBroadcast CondFull; EvRelease]
                    (Single.set_aux (Single.mk_aux true MutexFree []) s2)))
            /\ (Single.is_full (Single.aux s2) = false ->
                run t p s2
                = Blocked p
                    (log t [EvWait CondFull]
                       (Single.set_aux
                          (Single.mk_aux false MutexFree
                             (t :: Single.signal_full (Single.aux s2))) s2)))).
Proof.
  split.
  - intros Hf. break_single s. reflexivity.
  - intros Hf Hl Hw. break_single s.
    unfold Single._chpl_single_read_FF, Single.chpl_single_is_full,
      Single.aux.
    simpl.
    unfold Single.chpl_single_wait_full at 1. unfold Single.aux. simpl.
    rewrite Hw.
    eexists; split; [reflexivity |].
    intros s2 Hl2 Hw2; split; intros Hf2; break_single s2;
      unfold Single.chpl_single_wait_full, Single.aux; simpl;
      rewrite Hw2; simpl; f_equal; finish_world.
Qed.

End SingleProperties.

(** ** The theorems at sample variables *)

Lemma write_EF_then_read_FE_witness :
  Sync.is_full (Sync.aux sync_empty) = false
  /\ Sync.lock (Sync.aux sync_empty) = MutexFree
  /\ waiting 1%nat (Sync.signal_empty (Sync.aux sync_empty)) = false
  /\ exists c1 c2,
      run 1%nat (Sync._chpl_write_EF 42 10 "a.chpl") sync_empty = Done tt c1
      /\ run 2%nat (Sync._chpl_read_FE 0 20 "b.chpl") c1 = Done 42 c2
      /\ Sync.is_full (Sync.aux c2) = false
      /\ Sync.lock (Sync.aux c2) = MutexFree
      /\ trace c2 =
         trace sync_empty
         ++ map (pair 1%nat) [EvAcquire; EvBroadcast CondFull; EvRelease]
         ++ map (pair 2%nat) [EvAcquire; EvBroadcast CondEmpty; EvRelease].
Proof.
  split; [reflexivity | split; [reflexivity | split; [reflexivity |]]].
  apply (write_EF_then_read_FE 1%nat 2%nat sync_empty 42 0
           10 "a.chpl" 20 "b.chpl");
    reflexivity.
Defined.

Lemma second_write_EF_rejected_witness :
  Single.is_full (Single.aux single_written) = true
  /\ Single.lock (Single.aux single_written) = MutexFree
  /\ rejects_second_write "single var already defined"
       1%nat single_written 2 11 "a.chpl".
Proof.
  split; [reflexivity | split; [reflexivity |]].
  apply (second_write_EF_rejected 1%nat single_written 2 11 "a.chpl");
    reflexivity.
Defined.

(** C2, as stated: the message reported for the second write is not
    "single variable already assigned". *)
Lemma second_write_EF_message_differs :
  ~ rejects_second_write "single variable already assigned"
      1%nat single_written 2 11 "a.chpl".
Proof.
  intros (s' & Hrun & Htrace & _).
  vm_compute in Hrun. inversion Hrun; subst s'; clear Hrun.
  vm_compute in Htrace. discriminate Htrace.
Qed.

Lemma lock_fault_write_fatal_read_silent_witness :
  EINVAL <> 0
  /\ run 1%nat (Sync._chpl_write_EF 5 10 "a.chpl") sync_broken
     = Aborted "invalid mutex in _chpl_write_EF"
         (log 1%nat [EvInternalError "invalid mutex in _chpl_write_EF"] sync_broken)
  /\ run 1%nat (Sync._chpl_write_FF 5 10 "a.chpl") sync_broken
     = Aborted "invalid mutex in _chpl_write_FF"
         (log 1%nat [EvInternalError "invalid mutex in _chpl_write_FF"] sync_broken)
  /\ run 1%nat (Sync._chpl_write_XF 5) sync_broken
     = Aborted "invalid mutex in _chpl_write_XF"
         (log 1%nat [EvInternalError "invalid mutex in _chpl_write_XF"] sync_broken)
  /\ run 1%nat (Sync._chpl_sync_reset 0) sync_broken
     = Aborted "invalid mutex in _chpl_sync_reset"
         (log 1%nat [EvInternalError "invalid mutex in _chpl_sync_reset"] sync_broken)
  /\ run 1%nat (Sync._chpl_read_FE 9 10 "a.chpl") sync_broken = Done 9 sync_broken
  /\ run 1%nat (Sync._chpl_read_FF 9 10 "a.chpl") sync_broken = Done 9 sync_broken
  /\ run 1%nat (Sync._chpl_read_XX 9) sync_broken = Done 9 sync_broken.
Proof.
  assert (Hrc : EINVAL <> 0) by discriminate.
  destruct (lock_fault_write_fatal_read_silent
              1%nat sync_broken sync_broken EINVAL 9 5 0 10 "a.chpl" Hrc)
    as (H1 & H2 & H3 & H4 & H5 & H6 & H7).
  split; [exact Hrc |].
  split; [apply H1; reflexivity |].
  split; [apply H2; reflexivity |].
  split; [apply H3; reflexivity |].
  split; [apply H4; reflexivity |].
  split; [apply H5; reflexivity |].
  split; [apply H6; reflexivity | apply H7; reflexivity].
Defined.

Lemma single_read_FF_paths_witness :
  (Single.is_full (Single.aux single_written) = true
   /\ run 2%nat (Single._chpl_single_read_FF 0 20 "b.chpl") single_written
      = Done 1 single_written)
  /\ Single.is_full (Single.aux single_empty) = false
  /\ Single.lock (Single.aux single_empty) = MutexFree
  /\ waiting 2%nat (Single.signal_full (Single.aux single_empty)) = false
  /\ exists p,
      run 2%nat (Single._chpl_single_read_FF 0 20 "b.chpl") single_empty
      = Blocked p single_awaited
      /\ run 2%nat p
           (final (run 1%nat (Single._chpl_single_write_EF 5 10 "a.chpl")
                    single_awaited))
         = Done 5
             (mk_world (Single.mk_var 5 (Single.mk_aux true MutexFree []))
                (map (pair 2%nat) [EvWait CondFull]
                 ++ map (pair 1%nat) [EvAcquire; EvBroadcast CondFull; EvRelease]
                 ++ map (pair 2%nat) [EvAcquire; EvBroadcast CondFull; EvRelease])).
Proof.
  split.
  - split; [reflexivity |].
    apply (proj1 (single_read_FF_paths 2%nat single_written 0 20 "b.chpl"));
      reflexivity.
  - split; [reflexivity | split; [reflexivity | split; [reflexivity |]]].
    destruct (proj2 (single_read_FF_paths 2%nat single_empty 0 20 "b.chpl")
                eq_refl eq_refl eq_refl) as (p & Hblock & Hresume).
    exists p. split; [exact Hblock |].
    apply (proj1 (Hresume
                    (final (run 1%nat (Single._chpl_single_write_EF 5 10 "a.chpl")
                              single_awaited))
                    eq_refl eq_refl)).
    reflexivity.
Defined.

Lemma read_FF_after_write_EF_witness :
  Sync.is_full (Sync.aux sync_empty) = false
  /\ Sync.lock (Sync.aux sync_empty) = MutexFree
  /\ waiting 1%nat (Sync.signal_empty (Sync.aux sync_empty)) = false
  /\ exists c1,
      run 1%nat (Sync._chpl_write_EF 42 10 "a.chpl") sync_empty = Done tt c1
      /\ Forall2
           (fun r o =>
              exists w',
                o = Done 42 w'
                /\ Sync.is_full (Sync.aux w') = true
                /\ Sync.value (var w') = 42
                /\ Sync.signal_full (Sync.aux w') = []
                /\ exists tr,
                    trace w' =
                    tr ++ map (pair (reader_tid r))
                            [EvAcquire; EvBroadcast CondFull; EvRelease])
           [(2%nat, 0, 20, "b.chpl"); (3%nat, 0, 30, "c.chpl");
            (2%nat, 9, 21, "b.chpl")]
           (run_each
              (map reader_FF
                 [(2%nat, 0, 20, "b.chpl"); (3%nat, 0, 30, "c.chpl");
                  (2%nat, 9, 21, "b.chpl")])
              c1).
Proof.
  split; [reflexivity | split; [reflexivity | split; [reflexivity |]]].
  apply (read_FF_after_write_EF 1%nat sync_empty 42 10 "a.chpl"); reflexivity.
Defined.

Lemma write_FF_then_read_FF_witness :
  Sync.is_full (Sync.aux sync_full) = true
  /\ Sync.lock (Sync.aux sync_full) = MutexFree
  /\ waiting 1%nat (Sync.signal_full (Sync.aux sync_full)) = false
  /\ exists c1 c2,
      run 1%nat (Sync._chpl_write_FF 8 10 "a.chpl") sync_full = Done tt c1
      /\ Sync.value (var c1) = 8
      /\ Sync.is_full (Sync.aux c1) = true
      /\ run 2%nat (Sync._chpl_read_FF 0 20 "b.chpl") c1 = Done 8 c2
      /\ Sync.is_full (Sync.aux c2) = true.
Proof.
  split; [reflexivity | split; [reflexivity | split; [reflexivity |]]].
  apply (write_FF_then_read_FF 1%nat 2%nat sync_full 8 0 10 "a.chpl" 20 "b.chpl");
    reflexivity.
Defined.

Lemma sync_reset_empties_witness :
  Sync.lock (Sync.aux sync_full) = MutexFree
  /\ run 1%nat (Sync._chpl_sync_reset 0) sync_full =
     Done tt
       (mk_world (Sync.mk_var 0 (Sync.mk_aux false MutexFree [] []))
          (map (pair 1%nat) [EvAcquire; EvBroadcast CondEmpty; EvRelease])).
Proof.
  split; [reflexivity |].
  apply (sync_reset_empties 1%nat sync_full 0); reflexivity.
Defined.

Lemma read_FE_keeps_value_witness :
  Sync.is_full (Sync.aux sync_empty) = false
  /\ Sync.lock (Sync.aux sync_empty) = MutexFree
  /\ waiting 1%nat (Sync.signal_empty (Sync.aux sync_empty)) = false
  /\ exists c',
      run 1%nat (Sync._chpl_write_EF 42 10 "a.chpl" ;;
                 a <- Sync._chpl_read_FE 0 11 "a.chpl" ;;
                 b <- Sync._chpl_read_XX 0 ;;
                 Ret (a, b))%prog sync_empty
      = Done (42, 42) c'
      /\ Sync.is_full (Sync.aux c') = false
      /\ Sync.value (var c') = 42.
Proof.
  split; [reflexivity | split; [reflexivity | split; [reflexivity |]]].
  apply (proj2 (read_FE_keeps_value 1%nat sync_empty 42 0 0
                  10 "a.chpl" 11 "a.chpl"));
    reflexivity.
Defined.

Lemma single_write_EF_error_keeps_lock_witness :
  Single.lock (Single.aux single_written) = MutexFree
  /\ Single.is_full (Single.aux single_written) = true
  /\ exists s',
      run 1%nat (Single._chpl_single_write_EF 2 11 "a.chpl") single_written
      = Done tt s'
      /\ Single.lock (Single.aux s') = MutexHeld 1%nat
      /\ run 2%nat (Single._chpl_single_write_EF 3 20 "b.chpl") s'
         = Blocked (Single._chpl_single_write_EF 3 20 "b.chpl") s'.
Proof.
  split; [reflexivity | split; [reflexivity |]].
  eexists. split.
  - apply (proj1 (single_write_EF_error_keeps_lock
                    1%nat single_written 2 11 "a.chpl" eq_refl)).
    reflexivity.
  - split; reflexivity.
Defined.

Lemma single_reset_direct_witness :
  run 2%nat (Single._chpl_single_read_FF 0 20 "b.chpl") single_empty
  = Blocked
      (rc <- call (Single.chpl_single_wait_full 20 "b.chpl") ;;
       if rc =? 0 then
         x' <- call Single.load_value ;;
         call Single.chpl_single_mark_and_signal_full ;;
         Ret x'
       else Ret 0)%prog
      single_awaited
  /\ Single.signal_full
       (Single.aux (final (run 1%nat (Single._chpl_single_reset 0) single_awaited)))
     = [2%nat]
  /\ run 2%nat
       (rc <- call (Single.chpl_single_wait_full 20 "b.chpl") ;;
        if rc =? 0 then
          x' <- call Single.load_value ;;
          call Single.chpl_single_mark_and_signal_full ;;
          Ret x'
        else Ret 0)%prog
       (final (run 1%nat (Single._chpl_single_reset 0) single_awaited))
     = Blocked
         (rc <- call (Single.chpl_single_wait_full 20 "b.chpl") ;;
          if rc =? 0 then
            x' <- call Single.load_value ;;
            call Single.chpl_single_mark_and_signal_full ;;
            Ret x'
          else Ret 0)%prog
         (final (run 1%nat (Single._chpl_single_reset 0) single_awaited)).
Proof.
  split; [reflexivity | split; [reflexivity |]].
  apply (proj2 (single_reset_direct 1%nat single_awaited 0)
           2%nat single_empty 0 20 "b.chpl").
  reflexivity.
Defined.

(** * Further properties of the macros *)

Section SyncProtocol.
Context {V : Type}.
Implicit Types (c w : Sync.W V) (t : tid) (v x y : V).

Ltac sync_unfold :=
  unfold Sync._chpl_read_FE, Sync._chpl_read_FF, Sync._chpl_read_XX,
    Sync._chpl_write_EF, Sync._chpl_write_FF, Sync._chpl_write_XF,
    Sync._chpl_sync_reset,
    Sync.chpl_sync_wait_empty_and_lock, Sync.chpl_sync_wait_full_and_lock,
    Sync.chpl_sync_lock, Sync.aux.

(** X2: [_chpl_write_EF] on a Full variable does not return: the writer
    goes to sleep on the empty side and the stored value stays.  Once a
    [_chpl_read_FE] has taken the old value, the writer's next attempt
    stores the new one and fills the variable again. *)
Theorem write_EF_blocks_until_read_FE tw tr c v x l1 f1 l2 f2 :
  Sync.is_full (Sync.aux c) = true ->
  Sync.lock (Sync.aux c) = MutexFree ->
  waiting tw (Sync.signal_empty (Sync.aux c)) = false ->
  waiting tr (Sync.signal_full (Sync.aux c)) = false ->
  exists c1 c2 c3,
    run tw (Sync._chpl_write_EF v l1 f1) c
    = Blocked (Sync._chpl_write_EF v l1 f1) c1
    /\ Sync.value (var c1) = Sync.value (var c)
    /\ waiting tw (Sync.signal_empty (Sync.aux c1)) = true
    /\ run tr (Sync._chpl_read_FE x l2 f2) c1 = Done (Sync.value (var c)) c2
    /\ run tw (Sync._chpl_write_EF v l1 f1) c2 = Done tt c3
    /\ Sync.value (var c3) = v
    /\ Sync.is_full (Sync.aux c3) = true.
Proof.
  intros Hf Hl Hw Hr. break_sync c. sync_unfold.
  simpl. rewrite Hw. simpl.
  eexists; eexists; eexists.
  split; [reflexivity |].
  split; [reflexivity |].
  split; [simpl; rewrite Nat.eqb_refl; reflexivity |].
  simpl. rewrite Hr. simpl.
  split; [reflexivity |].
  split; [reflexivity |].
  split; reflexivity.
Qed.

(** X3: a writer asleep in [_chpl_write_EF] on a Full variable is also
    released by [_chpl_sync_reset]: after the reset its next attempt
    stores its value. *)
Theorem write_EF_blocks_until_reset tw t c v (zero : V) l1 f1 :
  Sync.is_full (Sync.aux c) = true ->
  Sync.lock (Sync.aux c) = MutexFree ->
  waiting tw (Sync.signal_empty (Sync.aux c)) = false ->
  exists c1 c2 c3,
    run tw (Sync._chpl_write_EF v l1 f1) c
    = Blocked (Sync._chpl_write_EF v l1 f1) c1
    /\ run t (Sync._chpl_sync_reset zero) c1 = Done tt c2
    /\ Sync.signal_empty (Sync.aux c2) = []
    /\ run tw (Sync._chpl_write_EF v l1 f1) c2 = Done tt c3
    /\ Sync.value (var c3) = v
    /\ Sync.is_full (Sync.aux c3) = true.
Proof.
  intros Hf Hl Hw. break_sync c. sync_unfold.
  simpl. rewrite Hw. simpl.
  eexists; eexists; eexists.
  split; [reflexivity |].
  simpl.
  split; [reflexivity |].
  split; [reflexivity |].
  split; [reflexivity |].
  split; reflexivity.
Qed.

(** X4: [_chpl_write_XF] ignores the state: on an Empty or a Full variable
    alike it stores its value, leaves the variable Full, wakes the tasks
    waiting for Full and releases the lock. *)
Theorem write_XF_forces_full t c y :
  Sync.lock (Sync.aux c) = MutexFree ->
  run t (Sync._chpl_write_XF y) c =
  Done tt
    (log t [EvAcquire; EvBroadcast CondFull; EvRelease]
       (mk_world
          (Sync.mk_var y
             (Sync.mk_aux true MutexFree [] (Sync.signal_empty (Sync.aux c))))
          (trace c))).
Proof.
  intros Hl. break_sync c. sync_unfold. simpl. f_equal. finish_world.
Qed.

(** X5: [_chpl_read_XX] returns the stored value whatever the state and
    changes nothing in the variable: same value, same state, same
    waiters; it only takes and releases the lock. *)
Theorem read_XX_changes_nothing t c x :
  Sync.lock (Sync.aux c) = MutexFree ->
  run t (Sync._chpl_read_XX x) c =
  Done (Sync.value (var c)) (log t [EvAcquire; EvRelease] c).
Proof.
  intros Hl. break_sync c. sync_unfold. simpl. f_equal. finish_world.
Qed.

(** X6: while the lock is held, by whatever task, none of the seven macros
    reads or writes the variable: each leaves its caller suspended at its
    first call, with the variable and the log as they were. *)
Theorem sync_macros_wait_for_lock t o c x y (zero : V) lineno filename :
  Sync.lock (Sync.aux c) = MutexHeld o ->
  run t (Sync._chpl_read_FE x lineno filename) c
  = Blocked (Sync._chpl_read_FE x lineno filename) c
  /\ run t (Sync._chpl_read_FF x lineno filename) c
     = Blocked (Sync._chpl_read_FF x lineno filename) c
  /\ run t (Sync._chpl_read_XX x) c = Blocked (Sync._chpl_read_XX x) c
  /\ run t (Sync._chpl_write_EF y lineno filename) c
     = Blocked (Sync._chpl_write_EF y lineno filename) c
  /\ run t (Sync._chpl_write_FF y lineno filename) c
     = Blocked (Sync._chpl_write_FF y lineno filename) c
  /\ run t (Sync._chpl_write_XF y) c = Blocked (Sync._chpl_write_XF y) c
  /\ run t (Sync._chpl_sync_reset zero) c
     = Blocked (Sync._chpl_sync_reset zero) c.
Proof.
  intros Hl. break_sync c. repeat split; reflexivity.
Qed.

(** X7: the macros never keep the lock.  Started on a variable whose lock
    is free, each of the seven ends, whether it returned or went to sleep,
    with the lock free again. *)
Theorem sync_macros_release_lock t c x y (zero : V) lineno filename :
  Sync.lock (Sync.aux c) = MutexFree ->
  Sync.lock (Sync.aux (final (run t (Sync._chpl_read_FE x lineno filename) c)))
  = MutexFree
  /\ Sync.lock (Sync.aux (final (run t (Sync._chpl_read_FF x lineno filename) c)))
     = MutexFree
  /\ Sync.lock (Sync.aux (final (run t (Sync._chpl_read_XX x) c))) = MutexFree
  /\ Sync.lock (Sync.aux (final (run t (Sync._chpl_write_EF y lineno filename) c)))
     = MutexFree
  /\ Sync.lock (Sync.aux (final (run t (Sync._chpl_write_FF y lineno filename) c)))
     = MutexFree
  /\ Sync.lock (Sync.aux (final (run t (Sync._chpl_write_XF y) c))) = MutexFree
  /\ Sync.lock (Sync.aux (final (run t (Sync._chpl_sync_reset zero) c)))
     = MutexFree.
Proof.
  intros Hl. break_sync c. sync_unfold. simpl.
  destruct (waiting t sf), (waiting t se), full; simpl; repeat split; reflexivity.
Qed.

(** X8: a value written by [_chpl_write_EF] is taken once: the first
    [_chpl_read_FE] returns it, a second one finds the variable Empty and
    goes to sleep. *)
Theorem read_FE_takes_value_once tw t2 t3 c v x2 x3 l1 f1 l2 f2 l3 f3 :
  Sync.is_full (Sync.aux c) = false ->
  Sync.lock (Sync.aux c) = MutexFree ->
  waiting tw (Sync.signal_empty (Sync.aux c)) = false ->
  exists c1 c2 c3,
    run tw (Sync._chpl_write_EF v l1 f1) c = Done tt c1
    /\ run t2 (Sync._chpl_read_FE x2 l2 f2) c1 = Done v c2
    /\ run t3 (Sync._chpl_read_FE x3 l3 f3) c2
       = Blocked (Sync._chpl_read_FE x3 l3 f3) c3
    /\ waiting t3 (Sync.signal_full (Sync.aux c3)) = true.
Proof.
  intros Hf Hl Hw. break_sync c. sync_unfold.
  simpl. rewrite Hw. simpl.
  eexists; eexists; eexists.
  split; [reflexivity |].
  split; [reflexivity |].
  split; [reflexivity |].
  simpl. rewrite Nat.eqb_refl. reflexivity.
Qed.

End SyncProtocol.

Section SingleProtocol.
Context {V : Type}.
Implicit Types (s w : Single.W V) (t : tid) (v x y : V).

Ltac single_unfold :=
  unfold Single._chpl_single_read_FF, Single._chpl_single_write_EF,
    Single._chpl_single_reset,
    Single.chpl_single_lock, Single.chpl_single_is_full,
    Single.chpl_single_wait_full, Single.aux.

(** X9: [_chpl_single_read_FF] on an Empty single variable goes to sleep;
    after [_chpl_single_write_EF] of [v] the sleeper's next attempt returns
    [v], and from then on any reader gets [v] on the fast path, with no
    effect on the variable. *)
Theorem single_read_FF_blocks_until_write_EF tr tw t' s v x x' l1 f1 l2 f2 l3 f3 :
  Single.is_full (Single.aux s) = false ->
  Single.lock (Single.aux s) = MutexFree ->
  waiting tr (Single.signal_full (Single.aux s)) = false ->
  exists p s1 s2 s3,
    run tr (Single._chpl_single_read_FF x l2 f2) s = Blocked p s1
    /\ waiting tr (Single.signal_full (Single.aux s1)) = true
    /\ run tw (Single._chpl_single_write_EF v l1 f1) s1 = Done tt s2
    /\ run tr p s2 = Done v s3
    /\ run t' (Single._chpl_single_read_FF x' l3 f3) s3 = Done v s3.
Proof.
  intros Hf Hl Hw. break_single s. single_unfold.
  simpl. rewrite Hw.
  eexists; eexists; eexists; eexists.
  split; [reflexivity |].
  split; [simpl; rewrite Nat.eqb_refl; reflexivity |].
  split; [reflexivity |].
  split; reflexivity.
Qed.

(** X10: when the lock-acquiring call returns nonzero,
    [_chpl_single_write_EF] ends in the fatal error "invalid mutex in
    _chpl_single_write_EF", while [_chpl_single_read_FF] on an Empty
    variable returns with its destination as it was and reports nothing. *)
Theorem single_lock_fault t s s' (rc : Z) x y lineno filename :
  rc <> 0 ->
  (Single.chpl_single_lock t s = Returns rc s' ->
   run t (Single._chpl_single_write_EF y lineno filename) s =
   Aborted "invalid mutex in _chpl_single_write_EF"
     (log t [EvInternalError "invalid mutex in _chpl_single_write_EF"] s'))
  /\ (Single.is_full (Single.aux s) = false ->
      Single.chpl_single_wait_full lineno filename t s = Returns rc s' ->
      run t (Single._chpl_single_read_FF x lineno filename) s = Done x s').
Proof.
  intros Hrc. apply Z.eqb_neq in Hrc. split.
  - intros H. unfold Single._chpl_single_write_EF.
    rewrite (run_call _ _ _ _ _ _ H), Hrc. reflexivity.
  - intros Hf H. unfold Single._chpl_single_read_FF.
    rewrite (run_call t (Single.chpl_single_is_full true) _ s false s)
      by (unfold Single.chpl_single_is_full; rewrite Hf; reflexivity).
    rewrite (run_call _ _ _ _ _ _ H), Hrc. reflexivity.
Qed.

(** X11: [_chpl_single_reset] makes a single variable writable again:
    whatever its state before, a [_chpl_single_write_EF] after the reset
    stores its value and reports no error. *)
Theorem single_reset_then_write_EF t t' s v (zero : V) lineno filename :
  Single.lock (Single.aux s) = MutexFree ->
  exists s1,
    run t (Single._chpl_single_reset zero) s = Done tt s1
    /\ run t' (Single._chpl_single_write_EF v lineno filename) s1 =
       Done tt
         (log t' [EvAcquire; EvBroadcast CondFull; EvRelease]
            (mk_world (Single.mk_var v (Single.mk_aux true MutexFree []))
               (trace s))).
Proof.
  intros Hl. break_single s. single_unfold. simpl.
  eexists; split; [reflexivity |].
  simpl. f_equal. finish_world.
Qed.

(** X12: the lock a rejected [_chpl_single_write_EF] leaves held is not
    released by [_chpl_single_reset] either: after the reset the variable
    is Empty with the lock still held by the rejected writer, and every
    later [_chpl_single_write_EF] and every [_chpl_single_read_FF] is left
    waiting for the lock. *)
Theorem rejected_write_EF_blocks_later_users
        t t1 t2 t3 s v2 v3 x (zero : V) l f l3 f3 l4 f4 :
  Single.is_full (Single.aux s) = true ->
  Single.lock (Single.aux s) = MutexFree ->
  exists s1 s2 p,
    run t (Single._chpl_single_write_EF v2 l f) s = Done tt s1
    /\ run t1 (Single._chpl_single_reset zero) s1 = Done tt s2
    /\ Single.is_full (Single.aux s2) = false
    /\ Single.lock (Single.aux s2) = MutexHeld t
    /\ run t2 (Single._chpl_single_write_EF v3 l3 f3) s2
       = Blocked (Single._chpl_single_write_EF v3 l3 f3) s2
    /\ run t3 (Single._chpl_single_read_FF x l4 f4) s2 = Blocked p s2.
Proof.
  intros Hf Hl. break_single s. single_unfold. simpl.
  eexists; eexists; eexists.
  split; [reflexivity |].
  split; [reflexivity |].
  split; [reflexivity |].
  split; [reflexivity |].
  split; reflexivity.
Qed.

(** X13: [_chpl_single_write_EF] never changes a Full single variable:
    whatever the lock, after the macro the value is the one before and the
    state is still Full. *)
Theorem single_write_EF_keeps_full_value t s v2 lineno filename :
  Single.is_full (Single.aux s) = true ->
  Single.value
    (var (final (run t (Single._chpl_single_write_EF v2 lineno filename) s)))
  = Single.value (var s)
  /\ Single.is_full
       (Single.aux
          (final (run t (Single._chpl_single_write_EF v2 lineno filename) s)))
     = true.
Proof.
  intros Hf. break_single s. single_unfold. simpl.
  destruct m; simpl; split; reflexivity.
Qed.

End SingleProtocol.
(** * The string helpers *)

Lemma int32_id (z : Z) : - 2 ^ 31 <= z < 2 ^ 31 -> int32 z = z.
Proof.
  intros H. unfold int32. rewrite Z.mod_small by lia. lia.
Qed.

Lemma strlen_app (a b : list ascii) : strlen (a ++ b) = strlen a + strlen b.
Proof. unfold strlen. rewrite List.length_app. lia. Qed.

Lemma strlen_nonneg (a : list ascii) : 0 <= strlen a.
Proof. unfold strlen. lia. Qed.

(** A character array filled with characters other than NUL holds them
    all. *)
Lemma c_content_id (r : list ascii) :
  Forall (fun c => c <> NUL) r -> c_content r = r.
Proof.
  induction 1 as [| c r Hc _ IH]; simpl.
  - reflexivity.
  - destruct (Ascii.eqb c NUL) eqn:E.
    + apply Ascii.eqb_eq in E. contradiction.
    + rewrite IH. reflexivity.
Qed.

Lemma glom_len_sum (k : nat) :
  forall (ap : list _string) (len : Z),
    (k <= List.length ap)%nat ->
    0 <= len ->
    len + strlen (List.concat (firstn k ap)) < 2 ^ 31 ->
    glom_len k ap len = Some (len + strlen (List.concat (firstn k ap))).
Proof.
  induction k as [| k IH]; intros ap len Hk Hlen Hsum; simpl.
  - unfold strlen; simpl. f_equal. lia.
  - destruct ap as [| a ap]; simpl in *; [lia |].
    rewrite strlen_app in *.
    pose proof (strlen_nonneg a).
    pose proof (strlen_nonneg (List.concat (firstn k ap))).
    rewrite int32_id by lia.
    rewrite IH by lia. f_equal. lia.
Qed.

Lemma glom_cat_concat (k : nat) :
  forall (ap : list _string) (cap : Z) (str : _string),
    (k <= List.length ap)%nat ->
    strlen str + strlen (List.concat (firstn k ap)) + 1 <= cap ->
    glom_cat k ap cap str = Some (str ++ List.concat (firstn k ap)).
Proof.
  induction k as [| k IH]; intros ap cap str Hk Hcap; simpl.
  - rewrite app_nil_r. reflexivity.
  - destruct ap as [| a ap]; simpl in *; [lia |].
    rewrite strlen_app in Hcap.
    pose proof (strlen_nonneg (List.concat (firstn k ap))).
    unfold strcat.
    destruct (Z.leb_spec (strlen str + strlen a + 1) cap); [| lia].
    rewrite IH by (try rewrite strlen_app; lia).
    rewrite <- app_assoc. reflexivity.
Qed.

Lemma glom_strings_firstn (k : nat) (ap : list _string) :
  (k <= List.length ap)%nat ->
  strlen (List.concat (firstn k ap)) < 2 ^ 31 - 1 ->
  _glom_strings (Z.of_nat k) ap = Some (List.concat (firstn k ap)).
Proof.
  intros Hk Hlen. unfold _glom_strings.
  pose proof (strlen_nonneg (List.concat (firstn k ap))).
  rewrite Nat2Z.id.
  rewrite glom_len_sum by (auto; lia).
  simpl Z.add. rewrite int32_id by lia.
  unfold chpl_malloc, empty_in. rewrite Z.mul_1_r.
  destruct (Z.leb_spec 1 (strlen (List.concat (firstn k ap)) + 1)); [| lia].
  rewrite glom_cat_concat; auto.
  unfold strlen at 1. simpl. lia.
Qed.

(** X14: [_glom_strings] returns the concatenation of its first
    [numstrings] arguments, and the block it allocates from their summed
    lengths is never overrun. *)
Theorem glom_strings_concat (k : nat) (ap : list _string) :
  (k <= List.length ap)%nat ->
  strlen (List.concat (firstn k ap)) < 2 ^ 31 - 1 ->
  _glom_strings (Z.of_nat k) ap = Some (List.concat (firstn k ap)).
Proof. apply glom_strings_firstn. Qed.

(** Asking [_glom_strings] for more strings than were passed makes it take
    an argument that is not there. *)
Lemma glom_strings_missing_argument (k : nat) (ap : list _string) :
  (List.length ap < k)%nat ->
  _glom_strings (Z.of_nat k) ap = None.
Proof.
  intros Hk. unfold _glom_strings. rewrite Nat2Z.id.
  assert (H : forall len, glom_len k ap len = None).
  { revert ap Hk. induction k as [| k IH]; intros ap Hk len; simpl.
    - lia.
    - destruct ap as [| a ap]; [reflexivity |].
      apply IH. simpl in Hk. lia. }
  rewrite H. reflexivity.
Qed.

Lemma string_concat_appends_aux (x y : _string) (lineno : Z) (filename : string) :
  string_concat x y lineno filename = Some (x ++ y)
  /\ string_length (x ++ y) = string_length x + string_length y.
Proof.
  split.
  - unfold string_concat, chpl_malloc, empty_in, strcat.
    pose proof (strlen_nonneg x). pose proof (strlen_nonneg y).
    rewrite Z.mul_1_r.
    destruct (Z.leb_spec 1 (strlen x + strlen y + 1)); [| lia].
    change (strlen []) with 0.
    destruct (Z.leb_spec (0 + strlen x + 1) (strlen x + strlen y + 1)); [| lia].
    simpl app.
    destruct (Z.leb_spec (strlen x + strlen y + 1) (strlen x + strlen y + 1));
      [reflexivity | lia].
  - apply strlen_app.
Qed.

(** X15: [string_concat] returns [x] followed by [y], its length is the
    sum of theirs, and the two [strcat] stay inside the block allocated
    for [strlen(x) + strlen(y) + 1] characters. *)
Theorem string_concat_appends (x y : _string) (lineno : Z) (filename : string) :
  string_concat x y lineno filename = Some (x ++ y)
  /\ string_length (x ++ y) = string_length x + string_length y.
Proof. apply string_concat_appends_aux. Qed.

Lemma glom_one (r : _string) :
  strlen r < 2 ^ 31 - 1 -> _glom_strings 1 [r] = Some r.
Proof.
  intros H.
  pose proof (glom_strings_firstn 1 [r]) as G.
  simpl in G. rewrite app_nil_r in G. apply G; auto.
Qed.

Lemma char_at_inside (x : _string) (off : Z) :
  0 <= off < strlen x ->
  char_at x off = Some (nth (Z.to_nat off) x NUL).
Proof.
  intros H. unfold char_at.
  destruct (Z.leb_spec 0 off); [| lia].
  destruct (Z.ltb_spec off (strlen x)); [| lia].
  simpl. apply nth_error_nth'. unfold strlen in H. lia.
Qed.

Lemma nth_inside_not_NUL (x : _string) (n : nat) :
  Forall (fun c => c <> NUL) x ->
  (n < List.length x)%nat ->
  nth n x NUL <> NUL.
Proof.
  intros Hx Hn. rewrite Forall_forall in Hx. apply Hx. apply nth_In. exact Hn.
Qed.

(** X16: an index between 1 and the length makes [string_index] return
    the one-character string at that position, counted from 1, and report
    nothing. *)
Theorem string_index_in_bounds (x : _string) (i lineno : Z) (filename : string) :
  Forall (fun c => c <> NUL) x ->
  1 <= i <= string_length x ->
  i < 2 ^ 31 ->
  string_index x i lineno filename
  = mk_ran [] (Some [nth (Z.to_nat (i - 1)) x NUL]).
Proof.
  intros Hx Hi Hint. unfold string_index, string_length in *.
  rewrite int32_id by lia.
  destruct (Z.ltb_spec (i - 1) 0); [lia |].
  rewrite Z.geb_leb.
  destruct (Z.leb_spec (strlen x) (i - 1)); [lia |].
  simpl orb. cbv iota.
  rewrite char_at_inside by lia.
  f_equal.
  unfold sprintf_c. simpl c_content.
  destruct (Ascii.eqb (nth (Z.to_nat (i - 1)) x NUL) NUL) eqn:E.
  - apply Ascii.eqb_eq in E.
    exfalso. revert E. apply nth_inside_not_NUL; auto.
    unfold strlen in *. lia.
  - apply glom_one. vm_compute. reflexivity.
Qed.

(** X17: an index outside 1..length, whatever [int] it is, makes
    [string_index] call [chpl_error] once, with "string index out of
    bounds" and the caller's position; on the empty string that is every
    index. *)
Theorem string_index_out_of_bounds (x : _string) (i lineno : Z) (filename : string) :
  - 2 ^ 31 <= i < 2 ^ 31 ->
  string_length x < 2 ^ 31 ->
  i < 1 \/ string_length x < i ->
  reports (string_index x i lineno filename)
  = [EvError "string index out of bounds" lineno filename].
Proof.
  intros Hint Hlen Hout. unfold string_index, string_length in *. simpl.
  assert (Hcond : (int32 (i - 1) <? 0) || (int32 (i - 1) >=? strlen x) = true).
  { destruct (Z.eq_dec i (- 2 ^ 31)) as [-> | Hne].
    - change (int32 (- 2 ^ 31 - 1)) with (2 ^ 31 - 1).
      rewrite Z.geb_leb.
      destruct (Z.leb_spec (strlen x) (2 ^ 31 - 1)); [| lia].
      apply orb_true_r.
    - rewrite int32_id by lia. rewrite Z.geb_leb.
      destruct (Z.ltb_spec (i - 1) 0); [reflexivity |].
      destruct (Z.leb_spec (strlen x) (i - 1)); [reflexivity | lia]. }
  rewrite Hcond. reflexivity.
Qed.

(** The upward loop ends after [(bound - src) / stride + 1] copies, if
    there is room for them, and copies every [stride]-th character. *)
Lemma copy_up_spec (x : _string) (bound stride : Z) :
  0 < stride ->
  bound < strlen x ->
  forall (n room : nat) (src : Z) (out : list ascii),
    0 <= src ->
    n = Z.to_nat ((bound - src) / stride + 1) ->
    (n <= room)%nat ->
    copy_up room x bound stride src out
    = Some (out ++ map (fun k => nth (Z.to_nat (src + Z.of_nat k * stride)) x NUL)
                     (seq 0 n)).
Proof.
  intros Hs Hb. induction n as [| n IH]; intros room src out Hsrc Hn Hroom.
  - assert (bound < src).
    { destruct (Z_lt_le_dec bound src) as [|Hle]; [assumption |].
      assert (0 <= (bound - src) / stride) by (apply Z.div_pos; lia). lia. }
    destruct room; simpl; destruct (Z.leb_spec src bound); try lia;
      rewrite app_nil_r; reflexivity.
  - assert (Hle : src <= bound).
    { destruct (Z_lt_le_dec bound src) as [Hlt|]; [| assumption].
      assert ((bound - src) / stride < 0) by (apply Z.div_lt_upper_bound; lia).
      lia. }
    destruct room as [| room]; [lia |].
    simpl. destruct (Z.leb_spec src bound); [| lia].
    rewrite char_at_inside by lia.
    rewrite (IH room (src + stride)); try lia.
    + rewrite <- app_assoc. do 2 f_equal. simpl.
      rewrite Z.add_0_r. f_equal.
      rewrite <- seq_shift, map_map. apply map_ext. intros k.
      do 2 f_equal. lia.
    + replace (bound - (src + stride)) with (bound - src + (-1) * stride) by lia.
      rewrite Z.div_add by lia. lia.
Qed.

(** The downward loop, for a negative stride. *)
Lemma copy_down_spec (x : _string) (bound stride : Z) :
  stride < 0 ->
  0 <= bound ->
  forall (n room : nat) (src : Z) (out : list ascii),
    src < strlen x ->
    n = Z.to_nat ((src - bound) / (- stride) + 1) ->
    (n <= room)%nat ->
    copy_down room x bound stride src out
    = Some (out ++ map (fun k => nth (Z.to_nat (src + Z.of_nat k * stride)) x NUL)
                     (seq 0 n)).
Proof.
  intros Hs Hb. induction n as [| n IH]; intros room src out Hsrc Hn Hroom.
  - assert (src < bound).
    { destruct (Z_lt_le_dec src bound) as [|Hle]; [assumption |].
      assert (0 <= (src - bound) / (- stride)) by (apply Z.div_pos; lia). lia. }
    destruct room; simpl; rewrite Z.geb_leb;
      destruct (Z.leb_spec bound src); try lia;
      rewrite app_nil_r; reflexivity.
  - assert (Hle : bound <= src).
    { destruct (Z_lt_le_dec src bound) as [Hlt|]; [| assumption].
      assert ((src - bound) / (- stride) < 0)
        by (apply Z.div_lt_upper_bound; lia).
      lia. }
    destruct room as [| room]; [lia |].
    simpl. rewrite Z.geb_leb. destruct (Z.leb_spec bound src); [| lia].
    rewrite char_at_inside by lia.
    rewrite (IH room (src + stride)); try lia.
    + rewrite <- app_assoc. do 2 f_equal. simpl.
      rewrite Z.add_0_r. f_equal.
      rewrite <- seq_shift, map_map. apply map_ext. intros k.
      do 2 f_equal. lia.
    + replace (src + stride - bound) with (src - bound + (-1) * (- stride)) by lia.
      rewrite Z.div_add by lia. lia.
Qed.

(** With stride 0 the downward loop has no way out but the end of the
    block. *)
Lemma copy_down_stride_0 (x : _string) (bound src : Z) :
  bound <= src ->
  forall (room : nat) (out : list ascii),
    copy_down room x bound 0 src out = None.
Proof.
  intros Hle. induction room as [| room IH]; intros out; simpl;
    rewrite Z.geb_leb; destruct (Z.leb_spec bound src); try lia.
  - reflexivity.
  - destruct (char_at x src); [| reflexivity].
    rewrite Z.add_0_r. apply IH.
Qed.

(** Characters picked inside the string are not NUL. *)
Lemma picked_not_NUL (x : _string) (f : nat -> Z) (n : nat) :
  Forall (fun c => c <> NUL) x ->
  (forall k, (k < n)%nat -> 0 <= f k < strlen x) ->
  Forall (fun c => c <> NUL) (map (fun k => nth (Z.to_nat (f k)) x NUL) (seq 0 n)).
Proof.
  intros Hx Hf. apply Forall_forall. intros c Hc.
  apply in_map_iff in Hc. destruct Hc as (k & <- & Hk).
  apply in_seq in Hk.
  apply nth_inside_not_NUL; auto.
  specialize (Hf k). unfold strlen in Hf. lia.
Qed.

Lemma strided_up_aux (x : _string) (low high stride lineno : Z) (filename : string) :
  Forall (fun c => c <> NUL) x ->
  1 <= low <= string_length x ->
  0 <= high <= string_length x ->
  string_length x < 2 ^ 31 - 1 ->
  0 < stride ->
  string_strided_select x low high stride lineno filename
  = mk_ran []
      (Some (map (fun k => nth (Z.to_nat (low - 1 + Z.of_nat k * stride)) x NUL)
               (seq 0 (Z.to_nat ((high - low) / stride + 1))))).
Proof.
  intros Hx Hlow Hhigh Hlen Hs.
  unfold string_strided_select, string_length in *.
  rewrite (proj2 (Z.gtb_lt stride 0) Hs).
  rewrite !Z.gtb_ltb.
  destruct (Z.ltb_spec low 1); [lia |].
  destruct (Z.ltb_spec (strlen x) low); [lia |].
  destruct (Z.ltb_spec (strlen x) high); [lia |].
  simpl orb. cbv iota.
  rewrite (int32_id (high - low)) by lia.
  rewrite (int32_id (high - 1)) by lia.
  set (n := Z.to_nat ((high - low) / stride + 1)).
  set (size := if high - low >=? 0 then high - low else 0).
  assert (Hsize : 0 <= size <= strlen x - 1 /\ Z.of_nat n <= size + 1).
  { subst size n. rewrite Z.geb_leb.
    destruct (Z.leb_spec 0 (high - low)).
    - assert ((high - low) / stride <= (high - low) / 1)
        by (apply Z.div_le_compat_l; lia).
      rewrite Z.div_1_r in *.
      assert (0 <= (high - low) / stride) by (apply Z.div_pos; lia).
      lia.
    - assert ((high - low) / stride < 0) by (apply Z.div_lt_upper_bound; lia).
      lia. }
  rewrite (int32_id (size + 2)) by lia.
  unfold chpl_malloc. rewrite Z.mul_1_r.
  rewrite (copy_up_spec x (high - 1) stride Hs ltac:(lia) n); try lia.
  2: { subst n. do 3 f_equal. lia. }
  simpl app.
  set (r := map _ (seq 0 n)).
  assert (Hr : strlen r = Z.of_nat n).
  { subst r. unfold strlen. rewrite length_map, length_seq. reflexivity. }
  destruct (Z.ltb_spec (strlen r) (size + 2)); [| lia].
  assert (Hnn : Forall (fun c => c <> NUL) r).
  { subst r. apply picked_not_NUL; auto.
    intros k Hk. subst n.
    assert (0 <= (high - low) / stride) by lia.
    assert (stride * ((high - low) / stride) <= high - low)
      by (apply Z.mul_div_le; lia).
    nia. }
  rewrite c_content_id by assumption.
  rewrite glom_one by lia. reflexivity.
Qed.

Lemma strided_down_aux (x : _string) (low high stride lineno : Z) (filename : string) :
  Forall (fun c => c <> NUL) x ->
  1 <= low <= string_length x ->
  0 <= high <= string_length x ->
  string_length x < 2 ^ 31 - 1 ->
  stride < 0 ->
  string_strided_select x low high stride lineno filename
  = mk_ran []
      (Some (map (fun k => nth (Z.to_nat (high - 1 + Z.of_nat k * stride)) x NUL)
               (seq 0 (Z.to_nat ((high - low) / (- stride) + 1))))).
Proof.
  intros Hx Hlow Hhigh Hlen Hs.
  unfold string_strided_select, string_length in *.
  rewrite !Z.gtb_ltb.
  destruct (Z.ltb_spec 0 stride); [lia |].
  destruct (Z.ltb_spec low 1); [lia |].
  destruct (Z.ltb_spec (strlen x) low); [lia |].
  destruct (Z.ltb_spec (strlen x) high); [lia |].
  simpl orb. cbv iota.
  rewrite (int32_id (high - low)) by lia.
  rewrite (int32_id (low - 1)) by lia.
  set (n := Z.to_nat ((high - low) / (- stride) + 1)).
  set (size := if high - low >=? 0 then high - low else 0).
  assert (Hsize : 0 <= size <= strlen x - 1 /\ Z.of_nat n <= size + 1).
  { subst size n. rewrite Z.geb_leb.
    destruct (Z.leb_spec 0 (high - low)).
    - assert ((high - low) / (- stride) <= (high - low) / 1)
        by (apply Z.div_le_compat_l; lia).
      rewrite Z.div_1_r in *.
      assert (0 <= (high - low) / (- stride)) by (apply Z.div_pos; lia).
      lia.
    - assert ((high - low) / (- stride) < 0)
        by (apply Z.div_lt_upper_bound; lia).
      lia. }
  rewrite (int32_id (size + 2)) by lia.
  unfold chpl_malloc. rewrite Z.mul_1_r.
  rewrite (copy_down_spec x (low - 1) stride Hs ltac:(lia) n); try lia.
  2: { subst n. do 3 f_equal. lia. }
  simpl app.
  set (r := map _ (seq 0 n)).
  assert (Hr : strlen r = Z.of_nat n).
  { subst r. unfold strlen. rewrite length_map, length_seq. reflexivity. }
  destruct (Z.ltb_spec (strlen r) (size + 2)); [| lia].
  assert (Hnn : Forall (fun c => c <> NUL) r).
  { subst r. apply picked_not_NUL; auto.
    intros k Hk. subst n.
    assert (0 <= (high - low) / (- stride)) by lia.
    assert (- stride * ((high - low) / (- stride)) <= high - low)
      by (apply Z.mul_div_le; lia).
    nia. }
  rewrite c_content_id by assumption.
  rewrite glom_one by lia. reflexivity.
Qed.

Lemma nth_seq_firstn_skipn (x : list ascii) :
  forall (a n : nat),
    (a + n <= List.length x)%nat ->
    map (fun k => nth (a + k) x NUL) (seq 0 n) = firstn n (skipn a x).
Proof.
  induction x as [| c x IH]; intros a n H; simpl in H.
  - assert (a = O) by lia. assert (n = O) by lia. subst. reflexivity.
  - destruct a as [| a].
    + destruct n as [| n]; [reflexivity |].
      simpl. f_equal.
      rewrite <- seq_shift, map_map.
      apply (IH O n). lia.
    + simpl. apply IH. lia.
Qed.

Lemma rev_seq (n : nat) :
  rev (seq 0 n) = map (fun k => (n - 1 - k)%nat) (seq 0 n).
Proof.
  induction n as [| n IH].
  - reflexivity.
  - rewrite seq_S at 1. rewrite rev_app_distr. simpl rev. simpl app.
    rewrite IH. simpl. f_equal; [f_equal; lia |].
    rewrite <- seq_shift, map_map. apply map_ext_in.
    intros k Hk. apply in_seq in Hk. lia.
Qed.

(** X18: with bounds inside the string and a positive stride,
    [string_strided_select] reports nothing and returns the characters at
    positions low, low + stride, ... up to high, counted from 1; the block
    of [size + 2] bytes is not overrun. *)
Theorem string_strided_select_positive
        (x : _string) (low high stride lineno : Z) (filename : string) :
  Forall (fun c => c <> NUL) x ->
  1 <= low <= string_length x ->
  0 <= high <= string_length x ->
  string_length x < 2 ^ 31 - 1 ->
  0 < stride ->
  string_strided_select x low high stride lineno filename
  = mk_ran []
      (Some (map (fun k => nth (Z.to_nat (low - 1 + Z.of_nat k * stride)) x NUL)
               (seq 0 (Z.to_nat ((high - low) / stride + 1))))).
Proof. apply strided_up_aux. Qed.

(** X19: with a negative stride the characters are taken downwards from
    position high: high, high + stride, ... down to low. *)
Theorem string_strided_select_negative
        (x : _string) (low high stride lineno : Z) (filename : string) :
  Forall (fun c => c <> NUL) x ->
  1 <= low <= string_length x ->
  0 <= high <= string_length x ->
  string_length x < 2 ^ 31 - 1 ->
  stride < 0 ->
  string_strided_select x low high stride lineno filename
  = mk_ran []
      (Some (map (fun k => nth (Z.to_nat (high - 1 + Z.of_nat k * stride)) x NUL)
               (seq 0 (Z.to_nat ((high - low) / (- stride) + 1))))).
Proof. apply strided_down_aux. Qed.

Lemma select_aux (x : _string) (low high lineno : Z) (filename : string) :
  Forall (fun c => c <> NUL) x ->
  1 <= low <= string_length x ->
  0 <= high <= string_length x ->
  string_length x < 2 ^ 31 - 1 ->
  string_select x low high lineno filename
  = mk_ran []
      (Some (firstn (Z.to_nat (high - low + 1)) (skipn (Z.to_nat (low - 1)) x))).
Proof.
  intros Hx Hlow Hhigh Hlen. unfold string_select.
  rewrite strided_up_aux by (auto; lia).
  rewrite Z.div_1_r. do 2 f_equal.
  rewrite <- nth_seq_firstn_skipn by (unfold string_length, strlen in *; lia).
  apply map_ext. intros k. f_equal. lia.
Qed.

(** X20: [string_select] with bounds inside the string returns the
    substring from position low to position high, both included and
    counted from 1, and the empty string when high is below low; it
    reports nothing. *)
Theorem string_select_substring
        (x : _string) (low high lineno : Z) (filename : string) :
  Forall (fun c => c <> NUL) x ->
  1 <= low <= string_length x ->
  0 <= high <= string_length x ->
  string_length x < 2 ^ 31 - 1 ->
  string_select x low high lineno filename
  = mk_ran []
      (Some (firstn (Z.to_nat (high - low + 1)) (skipn (Z.to_nat (low - 1)) x))).
Proof. apply select_aux. Qed.

(** X21: with stride -1, [string_strided_select] returns the substring
    that [string_select] returns for the same bounds, reversed. *)
Theorem string_strided_select_reverses
        (x : _string) (low high lineno : Z) (filename : string) :
  Forall (fun c => c <> NUL) x ->
  1 <= low <= string_length x ->
  0 <= high <= string_length x ->
  string_length x < 2 ^ 31 - 1 ->
  returned (string_strided_select x low high (-1) lineno filename)
  = option_map (@rev ascii) (returned (string_select x low high lineno filename)).
Proof.
  intros Hx Hlow Hhigh Hlen.
  rewrite select_aux by assumption.
  rewrite strided_down_aux by (auto; lia).
  simpl. f_equal.
  change (- -1) with 1. rewrite Z.div_1_r.
  set (n := Z.to_nat (high - low + 1)).
  rewrite <- nth_seq_firstn_skipn by (unfold string_length, strlen in *; lia).
  rewrite <- map_rev, rev_seq, map_map.
  apply map_ext_in. intros k Hk. apply in_seq in Hk.
  f_equal. lia.
Qed.

(** X22: with stride 0 and low not above high, [string_strided_select]
    returns no string: the loop it enters has no exit and writes past the
    end of the block allocated for the result. *)
Theorem string_strided_select_stride_0
        (x : _string) (low high lineno : Z) (filename : string) :
  - 2 ^ 31 < low < 2 ^ 31 ->
  low <= high ->
  returned (string_strided_select x low high 0 lineno filename) = None.
Proof.
  intros Hlow Hle. unfold string_strided_select. simpl returned.
  change (0 >? 0) with false. cbv iota.
  rewrite (int32_id (low - 1)) by lia.
  rewrite copy_down_stride_0 by lia. reflexivity.
Qed.

(** X23: for an index inside the string, [string_index] returns what
    [string_select] returns for the range from that index to itself. *)
Theorem string_index_is_select
        (x : _string) (i lineno : Z) (filename : string) :
  Forall (fun c => c <> NUL) x ->
  1 <= i <= string_length x ->
  string_length x < 2 ^ 31 - 1 ->
  string_index x i lineno filename = string_select x i i lineno filename.
Proof.
  intros Hx Hi Hlen. unfold string_select.
  rewrite strided_up_aux by (auto; lia).
  unfold string_index, string_length in *.
  rewrite int32_id by lia.
  destruct (Z.ltb_spec (i - 1) 0); [lia |].
  rewrite Z.geb_leb.
  destruct (Z.leb_spec (strlen x) (i - 1)); [lia |].
  simpl orb. cbv iota.
  rewrite char_at_inside by lia.
  f_equal.
  replace ((i - i) / 1 + 1) with 1 by (rewrite Z.sub_diag; reflexivity).
  simpl. rewrite Z.add_0_r.
  unfold sprintf_c. simpl c_content.
  destruct (Ascii.eqb (nth (Z.to_nat (i - 1)) x NUL) NUL) eqn:E.
  - apply Ascii.eqb_eq in E.
    exfalso. revert E. apply nth_inside_not_NUL; auto.
    unfold strlen in *. lia.
  - apply glom_one. vm_compute. reflexivity.
Qed.

Lemma strstr_unfold (x y : _string) :
  strstr x y =
  if is_prefix y x then Some O
  else match x with
       | [] => None
       | _ :: x' => option_map S (strstr x' y)
       end.
Proof. destruct x; reflexivity. Qed.

Lemma is_prefix_iff (y x : list ascii) :
  is_prefix y x = true <-> exists s, x = y ++ s.
Proof.
  revert x. induction y as [| c y IH]; intros x; simpl.
  - split; [intros _; exists x; reflexivity | reflexivity].
  - destruct x as [| d x].
    + split; [discriminate | intros [s Hs]; discriminate].
    + rewrite andb_true_iff, Ascii.eqb_eq, IH. split.
      * intros [-> [s ->]]. exists s. reflexivity.
      * intros [s Hs]. inversion Hs; subst. split; [reflexivity | eauto].
Qed.

Lemma contains_occurrence (p y s : list ascii) :
  string_contains (p ++ y ++ s) y = true.
Proof.
  unfold string_contains. induction p as [| c p IH].
  - rewrite strstr_unfold.
    rewrite (proj2 (is_prefix_iff y ([] ++ y ++ s))) by (exists s; reflexivity).
    reflexivity.
  - rewrite strstr_unfold.
    destruct (is_prefix y ((c :: p) ++ y ++ s)); [reflexivity |].
    simpl. destruct (strstr (p ++ y ++ s) y); [reflexivity | discriminate].
Qed.

Lemma contains_inv (x y : list ascii) :
  string_contains x y = true -> exists p s, x = p ++ y ++ s.
Proof.
  unfold string_contains. induction x as [| c x IH]; rewrite strstr_unfold.
  - destruct (is_prefix y []) eqn:E; [| discriminate].
    intros _. apply is_prefix_iff in E. destruct E as [s Hs].
    exists [], s. exact Hs.
  - destruct (is_prefix y (c :: x)) eqn:E.
    + intros _. apply is_prefix_iff in E. destruct E as [s Hs].
      exists [], s. exact Hs.
    + destruct (strstr x y) eqn:Ex; [| discriminate].
      intros _. destruct (IH eq_refl) as (p & s & Hx).
      exists (c :: p), s. simpl. f_equal. exact Hx.
Qed.

(** X24: [string_contains] answers true exactly when its second argument
    occurs in the first as a run of consecutive characters. *)
Theorem string_contains_iff (x y : _string) :
  string_contains x y = true <-> exists p s, x = p ++ y ++ s.
Proof.
  split.
  - apply contains_inv.
  - intros (p & s & ->). apply contains_occurrence.
Qed.

(** X25: the string [string_concat] returns contains both of its
    arguments. *)
Theorem string_concat_contains (x y z : _string) (lineno : Z) (filename : string) :
  string_concat x y lineno filename = Some z ->
  string_contains z x = true /\ string_contains z y = true.
Proof.
  intros H. destruct (string_concat_appends_aux x y lineno filename) as [E _].
  rewrite E in H. inversion H; subst z. split.
  - apply (contains_occurrence [] x y).
  - replace (x ++ y) with (x ++ y ++ []) by (rewrite app_nil_r; reflexivity).
    apply contains_occurrence.
Qed.

(** X26: what [string_select] returns for bounds inside the string is
    contained in the string. *)
Theorem string_select_contained
        (x r : _string) (low high lineno : Z) (filename : string) :
  Forall (fun c => c <> NUL) x ->
  1 <= low <= string_length x ->
  0 <= high <= string_length x ->
  string_length x < 2 ^ 31 - 1 ->
  returned (string_select x low high lineno filename) = Some r ->
  string_contains x r = true.
Proof.
  intros Hx Hlow Hhigh Hlen H.
  rewrite select_aux in H by assumption. simpl in H.
  inversion H as [Hr]; clear H.
  set (a := Z.to_nat (low - 1)) in *.
  set (n := Z.to_nat (high - low + 1)) in *.
  rewrite <- (firstn_skipn a x) at 1.
  rewrite <- (firstn_skipn n (skipn a x)) at 1.
  apply contains_occurrence.
Qed.

(** X27: [string_concat] of two strings is what [_glom_strings] returns
    for the same two. *)
Theorem string_concat_is_glom (x y : _string) (lineno : Z) (filename : string) :
  strlen x + strlen y < 2 ^ 31 - 1 ->
  string_concat x y lineno filename = _glom_strings 2 [x; y].
Proof.
  intros H.
  rewrite (proj1 (string_concat_appends_aux x y lineno filename)).
  change (_glom_strings 2 [x; y]) with (_glom_strings (Z.of_nat 2) [x; y]).
  rewrite (glom_strings_firstn 2 [x; y]).
  - simpl. rewrite app_nil_r. reflexivity.
  - simpl. lia.
  - simpl. rewrite app_nil_r, strlen_app. exact H.
Qed.

(** * The further properties at sample inputs *)

Ltac by_compute := vm_compute; repeat split; discriminate.

Lemma read_FE_blocks_until_write_EF_witness :
  Sync.is_full (Sync.aux sync_empty) = false
  /\ Sync.lock (Sync.aux sync_empty) = MutexFree
  /\ waiting 2%nat (Sync.signal_full (Sync.aux sync_empty)) = false
  /\ waiting 1%nat (Sync.signal_empty (Sync.aux sync_empty)) = false
  /\ exists c1 c2 c3,
      run 2%nat (Sync._chpl_read_FE 0 20 "b.chpl") sync_empty
      = Blocked (Sync._chpl_read_FE 0 20 "b.chpl") c1
      /\ waiting 2%nat (Sync.signal_full (Sync.aux c1)) = true
      /\ run 1%nat (Sync._chpl_write_EF 42 10 "a.chpl") c1 = Done tt c2
      /\ run 2%nat (Sync._chpl_read_FE 0 20 "b.chpl") c2 = Done 42 c3
      /\ Sync.is_full (Sync.aux c3) = false.
Proof.
  split; [reflexivity | split; [reflexivity | split; [reflexivity |
    split; [reflexivity |]]]].
  apply (read_FE_blocks_until_write_EF 2%nat 1%nat sync_empty 42 0
           10 "a.chpl" 20 "b.chpl");
    reflexivity.
Defined.

Lemma write_EF_blocks_until_read_FE_witness :
  Sync.is_full (Sync.aux sync_full) = true
  /\ Sync.lock (Sync.aux sync_full) = MutexFree
  /\ waiting 1%nat (Sync.signal_empty (Sync.aux sync_full)) = false
  /\ waiting 2%nat (Sync.signal_full (Sync.aux sync_full)) = false
  /\ exists c1 c2 c3,
      run 1%nat (Sync._chpl_write_EF 8 10 "a.chpl") sync_full
      = Blocked (Sync._chpl_write_EF 8 10 "a.chpl") c1
      /\ Sync.value (var c1) = Sync.value (var sync_full)
      /\ waiting 1%nat (Sync.signal_empty (Sync.aux c1)) = true
      /\ run 2%nat (Sync._chpl_read_FE 0 20 "b.chpl") c1
         = Done (Sync.value (var sync_full)) c2
      /\ run 1%nat (Sync._chpl_write_EF 8 10 "a.chpl") c2 = Done tt c3
      /\ Sync.value (var c3) = 8
      /\ Sync.is_full (Sync.aux c3) = true.
Proof.
  split; [reflexivity | split; [reflexivity | split; [reflexivity |
    split; [reflexivity |]]]].
  apply (write_EF_blocks_until_read_FE 1%nat 2%nat sync_full 8 0
           10 "a.chpl" 20 "b.chpl");
    reflexivity.
Defined.

Lemma write_EF_blocks_until_reset_witness :
  Sync.is_full (Sync.aux sync_full) = true
  /\ Sync.lock (Sync.aux sync_full) = MutexFree
  /\ waiting 1%nat (Sync.signal_empty (Sync.aux sync_full)) = false
  /\ exists c1 c2 c3,
      run 1%nat (Sync._chpl_write_EF 8 10 "a.chpl") sync_full
      = Blocked (Sync._chpl_write_EF 8 10 "a.chpl") c1
      /\ run 2%nat (Sync._chpl_sync_reset 0) c1 = Done tt c2
      /\ Sync.signal_empty (Sync.aux c2) = []
      /\ run 1%nat (Sync._chpl_write_EF 8 10 "a.chpl") c2 = Done tt c3
      /\ Sync.value (var c3) = 8
      /\ Sync.is_full (Sync.aux c3) = true.
Proof.
  split; [reflexivity | split; [reflexivity | split; [reflexivity |]]].
  apply (write_EF_blocks_until_reset 1%nat 2%nat sync_full 8 0 10 "a.chpl");
    reflexivity.
Defined.

Lemma write_XF_forces_full_witness :
  Sync.lock (Sync.aux sync_empty) = MutexFree
  /\ run 1%nat (Sync._chpl_write_XF 5) sync_empty =
     Done tt
       (mk_world (Sync.mk_var 5 (Sync.mk_aux true MutexFree [] []))
          (map (pair 1%nat) [EvAcquire; EvBroadcast CondFull; EvRelease])).
Proof.
  split; [reflexivity |].
  apply (write_XF_forces_full 1%nat sync_empty 5); reflexivity.
Defined.

Lemma read_XX_changes_nothing_witness :
  Sync.lock (Sync.aux sync_empty) = MutexFree
  /\ run 1%nat (Sync._chpl_read_XX 9) sync_empty =
     Done 0 (log 1%nat [EvAcquire; EvRelease] sync_empty).
Proof.
  split; [reflexivity |].
  apply (read_XX_changes_nothing 1%nat sync_empty 9); reflexivity.
Defined.

Lemma sync_macros_wait_for_lock_witness :
  Sync.lock (Sync.aux sync_held) = MutexHeld 4%nat
  /\ run 1%nat (Sync._chpl_write_XF 5) sync_held
     = Blocked (Sync._chpl_write_XF 5) sync_held
  /\ run 1%nat (Sync._chpl_read_XX 9) sync_held
     = Blocked (Sync._chpl_read_XX 9) sync_held.
Proof.
  split; [reflexivity |].
  destruct (sync_macros_wait_for_lock 1%nat 4%nat sync_held 9 5 0 10 "a.chpl"
              eq_refl)
    as (_ & _ & Hxx & _ & _ & Hxf & _).
  split; [exact Hxf | exact Hxx].
Defined.

Lemma sync_macros_release_lock_witness :
  Sync.lock (Sync.aux sync_full) = MutexFree
  /\ Sync.lock (Sync.aux (final (run 1%nat (Sync._chpl_read_FE 0 10 "a.chpl")
                                   sync_full))) = MutexFree
  /\ Sync.lock (Sync.aux (final (run 1%nat (Sync._chpl_write_EF 5 10 "a.chpl")
                                   sync_full))) = MutexFree.
Proof.
  split; [reflexivity |].
  destruct (sync_macros_release_lock 1%nat sync_full 0 5 0 10 "a.chpl" eq_refl)
    as (Hfe & _ & _ & Hef & _).
  split; [exact Hfe | exact Hef].
Defined.

Lemma read_FE_takes_value_once_witness :
  Sync.is_full (Sync.aux sync_empty) = false
  /\ Sync.lock (Sync.aux sync_empty) = MutexFree
  /\ waiting 1%nat (Sync.signal_empty (Sync.aux sync_empty)) = false
  /\ exists c1 c2 c3,
      run 1%nat (Sync._chpl_write_EF 42 10 "a.chpl") sync_empty = Done tt c1
      /\ run 2%nat (Sync._chpl_read_FE 0 20 "b.chpl") c1 = Done 42 c2
      /\ run 3%nat (Sync._chpl_read_FE 0 30 "c.chpl") c2
         = Blocked (Sync._chpl_read_FE 0 30 "c.chpl") c3
      /\ waiting 3%nat (Sync.signal_full (Sync.aux c3)) = true.
Proof.
  split; [reflexivity | split; [reflexivity | split; [reflexivity |]]].
  apply (read_FE_takes_value_once 1%nat 2%nat 3%nat sync_empty 42 0 0
           10 "a.chpl" 20 "b.chpl" 30 "c.chpl");
    reflexivity.
Defined.

Lemma single_read_FF_blocks_until_write_EF_witness :
  Single.is_full (Single.aux single_empty) = false
  /\ Single.lock (Single.aux single_empty) = MutexFree
  /\ waiting 2%nat (Single.signal_full (Single.aux single_empty)) = false
  /\ exists p s1 s2 s3,
      run 2%nat (Single._chpl_single_read_FF 0 20 "b.chpl") single_empty
      = Blocked p s1
      /\ waiting 2%nat (Single.signal_full (Single.aux s1)) = true
      /\ run 1%nat (Single._chpl_single_write_EF 5 10 "a.chpl") s1 = Done tt s2
      /\ run 2%nat p s2 = Done 5 s3
      /\ run 3%nat (Single._chpl_single_read_FF 0 30 "c.chpl") s3 = Done 5 s3.
Proof.
  split; [reflexivity | split; [reflexivity | split; [reflexivity |]]].
  apply (single_read_FF_blocks_until_write_EF 2%nat 1%nat 3%nat single_empty
           5 0 0 10 "a.chpl" 20 "b.chpl" 30 "c.chpl");
    reflexivity.
Defined.

Lemma single_lock_fault_witness :
  EINVAL <> 0
  /\ run 1%nat (Single._chpl_single_write_EF 5 10 "a.chpl") single_broken
     = Aborted "invalid mutex in _chpl_single_write_EF"
         (log 1%nat [EvInternalError "invalid mutex in _chpl_single_write_EF"]
            single_broken)
  /\ run 1%nat (Single._chpl_single_read_FF 9 10 "a.chpl") single_broken
     = Done 9 single_broken.
Proof.
  assert (Hrc : EINVAL <> 0) by discriminate.
  destruct (single_lock_fault 1%nat single_broken single_broken EINVAL 9 5
              10 "a.chpl" Hrc) as (H1 & H2).
  split; [exact Hrc |].
  split; [apply H1; reflexivity | apply H2; reflexivity].
Defined.

Lemma single_reset_then_write_EF_witness :
  Single.lock (Single.aux single_written) = MutexFree
  /\ exists s1,
      run 1%nat (Single._chpl_single_reset 0) single_written = Done tt s1
      /\ run 2%nat (Single._chpl_single_write_EF 6 20 "b.chpl") s1 =
         Done tt
           (log 2%nat [EvAcquire; EvBroadcast CondFull; EvRelease]
              (mk_world (Single.mk_var 6 (Single.mk_aux true MutexFree []))
                 (trace single_written))).
Proof.
  split; [reflexivity |].
  apply (single_reset_then_write_EF 1%nat 2%nat single_written 6 0 20 "b.chpl");
    reflexivity.
Defined.

Lemma rejected_write_EF_blocks_later_users_witness :
  Single.is_full (Single.aux single_written) = true
  /\ Single.lock (Single.aux single_written) = MutexFree
  /\ exists s1 s2 p,
      run 1%nat (Single._chpl_single_write_EF 2 11 "a.chpl") single_written
      = Done tt s1
      /\ run 1%nat (Single._chpl_single_reset 0) s1 = Done tt s2
      /\ Single.is_full (Single.aux s2) = false
      /\ Single.lock (Single.aux s2) = MutexHeld 1%nat
      /\ run 2%nat (Single._chpl_single_write_EF 3 20 "b.chpl") s2
         = Blocked (Single._chpl_single_write_EF 3 20 "b.chpl") s2
      /\ run 3%nat (Single._chpl_single_read_FF 0 30 "c.chpl") s2 = Blocked p s2.
Proof.
  split; [reflexivity | split; [reflexivity |]].
  apply (rejected_write_EF_blocks_later_users 1%nat 1%nat 2%nat 3%nat
           single_written 2 3 0 0 11 "a.chpl" 20 "b.chpl" 30 "c.chpl");
    reflexivity.
Defined.

Lemma single_write_EF_keeps_full_value_witness :
  Single.is_full (Single.aux single_written) = true
  /\ Single.value
       (var (final (run 2%nat (Single._chpl_single_write_EF 2 20 "b.chpl")
                      single_written)))
     = 1
  /\ Single.is_full
       (Single.aux
          (final (run 2%nat (Single._chpl_single_write_EF 2 20 "b.chpl")
                    single_written)))
     = true.
Proof.
  split; [reflexivity |].
  apply (single_write_EF_keeps_full_value 2%nat single_written 2 20 "b.chpl").
  reflexivity.
Defined.

Lemma glom_strings_concat_witness :
  (2 <= List.length [hello; hello; hello])%nat
  /\ strlen (List.concat (firstn 2 [hello; hello; hello])) < 2 ^ 31 - 1
  /\ _glom_strings 2 [hello; hello; hello]
     = Some (list_ascii_of_string "hellohello").
Proof.
  split; [vm_compute; repeat constructor |].
  split; [reflexivity |].
  apply (glom_strings_concat 2 [hello; hello; hello]).
  - vm_compute; repeat constructor.
  - reflexivity.
Defined.

Lemma string_index_in_bounds_witness :
  Forall (fun c => c <> NUL) hello
  /\ 1 <= 2 <= string_length hello
  /\ 2 < 2 ^ 31
  /\ string_index hello 2 10 "a.chpl" = mk_ran [] (Some ["e"%char]).
Proof.
  assert (Hx : Forall (fun c => c <> NUL) hello)
    by (repeat constructor; discriminate).
  split; [exact Hx |].
  split; [by_compute |].
  split; [reflexivity |].
  apply (string_index_in_bounds hello 2 10 "a.chpl" Hx).
  - by_compute.
  - reflexivity.
Defined.

Lemma string_index_out_of_bounds_witness :
  - 2 ^ 31 <= 6 < 2 ^ 31
  /\ string_length hello < 2 ^ 31
  /\ (6 < 1 \/ string_length hello < 6)
  /\ reports (string_index hello 6 10 "a.chpl")
     = [EvError "string index out of bounds" 10 "a.chpl"].
Proof.
  split; [by_compute |].
  split; [reflexivity |].
  split; [right; reflexivity |].
  apply (string_index_out_of_bounds hello 6 10 "a.chpl").
  - by_compute.
  - reflexivity.
  - right; reflexivity.
Defined.

Lemma string_strided_select_positive_witness :
  Forall (fun c => c <> NUL) hello
  /\ 1 <= 1 <= string_length hello
  /\ 0 <= 5 <= string_length hello
  /\ string_length hello < 2 ^ 31 - 1
  /\ 0 < 2
  /\ string_strided_select hello 1 5 2 10 "a.chpl"
     = mk_ran [] (Some (list_ascii_of_string "hlo")).
Proof.
  assert (Hx : Forall (fun c => c <> NUL) hello)
    by (repeat constructor; discriminate).
  split; [exact Hx |].
  split; [by_compute |].
  split; [by_compute |].
  split; [reflexivity |].
  split; [reflexivity |].
  rewrite (string_strided_select_positive hello 1 5 2 10 "a.chpl"
             Hx);
    [reflexivity | by_compute | by_compute | reflexivity | reflexivity].
Defined.

Lemma string_strided_select_negative_witness :
  Forall (fun c => c <> NUL) hello
  /\ 1 <= 1 <= string_length hello
  /\ 0 <= 5 <= string_length hello
  /\ string_length hello < 2 ^ 31 - 1
  /\ -2 < 0
  /\ string_strided_select hello 1 5 (-2) 10 "a.chpl"
     = mk_ran [] (Some (list_ascii_of_string "olh")).
Proof.
  assert (Hx : Forall (fun c => c <> NUL) hello)
    by (repeat constructor; discriminate).
  split; [exact Hx |].
  split; [by_compute |].
  split; [by_compute |].
  split; [reflexivity |].
  split; [reflexivity |].
  rewrite (string_strided_select_negative hello 1 5 (-2) 10 "a.chpl"
             Hx);
    [reflexivity | by_compute | by_compute | reflexivity | reflexivity].
Defined.

Lemma string_select_substring_witness :
  Forall (fun c => c <> NUL) hello
  /\ 1 <= 2 <= string_length hello
  /\ 0 <= 4 <= string_length hello
  /\ string_length hello < 2 ^ 31 - 1
  /\ string_select hello 2 4 10 "a.chpl"
     = mk_ran [] (Some (list_ascii_of_string "ell")).
Proof.
  assert (Hx : Forall (fun c => c <> NUL) hello)
    by (repeat constructor; discriminate).
  split; [exact Hx |].
  split; [by_compute |].
  split; [by_compute |].
  split; [reflexivity |].
  rewrite (string_select_substring hello 2 4 10 "a.chpl" Hx);
    [reflexivity | by_compute | by_compute | reflexivity].
Defined.

Lemma string_strided_select_reverses_witness :
  Forall (fun c => c <> NUL) hello
  /\ 1 <= 2 <= string_length hello
  /\ 0 <= 4 <= string_length hello
  /\ string_length hello < 2 ^ 31 - 1
  /\ returned (string_strided_select hello 2 4 (-1) 10 "a.chpl")
     = Some (list_ascii_of_string "lle").
Proof.
  assert (Hx : Forall (fun c => c <> NUL) hello)
    by (repeat constructor; discriminate).
  split; [exact Hx |].
  split; [by_compute |].
  split; [by_compute |].
  split; [reflexivity |].
  rewrite (string_strided_select_reverses hello 2 4 10 "a.chpl"
             Hx);
    [reflexivity | by_compute | by_compute | reflexivity].
Defined.

Lemma string_strided_select_stride_0_witness :
  - 2 ^ 31 < 2 < 2 ^ 31
  /\ 2 <= 4
  /\ returned (string_strided_select hello 2 4 0 10 "a.chpl") = None.
Proof.
  split; [by_compute |].
  split; [by_compute |].
  apply (string_strided_select_stride_0 hello 2 4 10 "a.chpl"); by_compute.
Defined.

Lemma string_index_is_select_witness :
  Forall (fun c => c <> NUL) hello
  /\ 1 <= 5 <= string_length hello
  /\ string_length hello < 2 ^ 31 - 1
  /\ string_index hello 5 10 "a.chpl" = string_select hello 5 5 10 "a.chpl".
Proof.
  assert (Hx : Forall (fun c => c <> NUL) hello)
    by (repeat constructor; discriminate).
  split; [exact Hx |].
  split; [by_compute |].
  split; [reflexivity |].
  apply (string_index_is_select hello 5 10 "a.chpl" Hx).
  - by_compute.
  - reflexivity.
Defined.

Lemma string_concat_contains_witness :
  string_concat hello hello 10 "a.chpl"
  = Some (list_ascii_of_string "hellohello")
  /\ string_contains (list_ascii_of_string "hellohello") hello = true.
Proof.
  split; [reflexivity |].
  apply (string_concat_contains hello hello (list_ascii_of_string "hellohello")
           10 "a.chpl").
  reflexivity.
Defined.

Lemma string_select_contained_witness :
  Forall (fun c => c <> NUL) hello
  /\ 1 <= 2 <= string_length hello
  /\ 0 <= 4 <= string_length hello
  /\ string_length hello < 2 ^ 31 - 1
  /\ returned (string_select hello 2 4 10 "a.chpl")
     = Some (list_ascii_of_string "ell")
  /\ string_contains hello (list_ascii_of_string "ell") = true.
Proof.
  assert (Hx : Forall (fun c => c <> NUL) hello)
    by (repeat constructor; discriminate).
  split; [exact Hx |].
  split; [by_compute |].
  split; [by_compute |].
  split; [reflexivity |].
  split; [reflexivity |].
  apply (string_select_contained hello (list_ascii_of_string "ell") 2 4
           10 "a.chpl" Hx).
  - by_compute.
  - by_compute.
  - reflexivity.
  - reflexivity.
Defined.

Lemma string_concat_is_glom_witness :
  strlen hello + strlen hello < 2 ^ 31 - 1
  /\ string_concat hello hello 10 "a.chpl" = _glom_strings 2 [hello; hello].
Proof.
  split; [reflexivity |].
  apply (string_concat_is_glom hello hello 10 "a.chpl"). reflexivity.
Defined.
